(** * NodeClaim: the API type, its admission rules, and the state informer

    A shallow embedding of
    - [pkg/apis/v1/nodeclaim.go]: the [NodeClaim] type with the validation
      markers attached to it (the CEL rules on [Requirements], the bounds on
      [MinValues], [MaxItems], the transition rule on [Spec]);
    - the [informer] package's [NodeClaimController]: [Reconcile] and
      [Register].

    Go structs are records, a nil-able pointer or error is an [option], a
    slice is a [list], a [map] is a [gmap], Go's [int] and [time.Duration]
    are [Z].  The markers are checked on the object as it is sent, so a
    slice a marker looks at is an [option] of a list: the field can be
    left out of the object.  The collaborators of the controller (the kube
    client, the cluster state) are reached through a small state monad
    that threads the cluster state and records every call made on a
    collaborator. *)

From Stdlib Require Import ZArith Lia Ascii String.
From stdpp Require Import base decidable option list strings gmap.

Local Open Scope string_scope.
Local Open Scope list_scope.
Local Open Scope Z_scope.

(** ** strconv.ParseInt(s, 10, 64)

    CEL's [int(string)] conversion is Go's [strconv.ParseInt] in base 10 on
    64 bits: an optional sign, then at least one decimal digit and nothing
    else, and the value has to fit a signed 64-bit integer. *)
Module strconv.

Definition digit (c : ascii) : option Z :=
  let n := Z.of_nat (nat_of_ascii c) in
  if (48 <=? n) && (n <=? 57) then Some (n - 48) else None.

Fixpoint digits (acc : Z) (s : string) : option Z :=
  match s with
  | EmptyString => Some acc
  | String c s' =>
      match digit c with
      | Some d => digits (10 * acc + d) s'
      | None => None
      end
  end.

(** [ParseUint] without its 64-bit bound, which [ParseInt] subsumes. *)
Definition ParseUint (s : string) : option Z :=
  match s with
  | EmptyString => None
  | _ => digits 0 s
  end.

Definition ParseInt (s : string) : option Z :=
  match s with
  | EmptyString => None
  | String c rest =>
      let neg := bool_decide (c = "-"%char) in
      let s' := if bool_decide (c = "+"%char) || neg then rest else s in
      match ParseUint s' with
      | None => None
      | Some un =>
          if negb neg && (2 ^ 63 <=? un) then None
          else if neg && (2 ^ 63 <? un) then None
          else Some (if neg then - un else un)
      end
  end.

End strconv.

(** ** The fragment of CEL the validation rules are written in

    A CEL expression evaluates to a value or to an error ([None]).  The
    logical operators absorb errors: [false && error] is [false] whichever
    side the error is on, and the [all] macro folds [&&] over the list. *)
Module cel.

Definition result (A : Type) : Type := option A.

Definition lit {A} (a : A) : result A := Some a.

Definition lift2 {A B C} (f : A → B → C) (a : result A) (b : result B) : result C :=
  match a, b with
  | Some x, Some y => Some (f x y)
  | _, _ => None
  end.

Definition and (a b : result bool) : result bool :=
  match a, b with
  | Some false, _ | _, Some false => Some false
  | Some true, Some true => Some true
  | _, _ => None
  end.

Definition or (a b : result bool) : result bool :=
  match a, b with
  | Some true, _ | _, Some true => Some true
  | Some false, Some false => Some false
  | _, _ => None
  end.

(** [c ? t : e] *)
Definition cond {A} (c : result bool) (t e : result A) : result A :=
  match c with
  | Some true => t
  | Some false => e
  | None => None
  end.

(** [l.all(x, p)] *)
Definition all {A} (l : list A) (p : A → result bool) : result bool :=
  foldr (λ x acc, and (p x) acc) (lit true) l.

Definition eq_string : result string → result string → result bool :=
  lift2 (λ a b, bool_decide (a = b)).
Definition eq_int : result Z → result Z → result bool := lift2 Z.eqb.
Definition ne_int : result Z → result Z → result bool :=
  lift2 (λ a b, negb (a =? b)).
Definition ge_int : result Z → result Z → result bool := lift2 Z.geb.

(** [l.size()] *)
Definition size {A} (l : result (list A)) : result Z :=
  match l with
  | Some l => Some (Z.of_nat (length l))
  | None => None
  end.

(** [l[i]]: an index out of range is an error *)
Definition index {A} (l : result (list A)) (i : Z) : result A :=
  match l with
  | Some l => if i <? 0 then None else l !! Z.to_nat i
  | None => None
  end.

(** [int(s)] *)
Definition int (s : result string) : result Z :=
  match s with
  | Some s => strconv.ParseInt s
  | None => None
  end.

(** [has(x.f)] for an optional field, and [x.f] itself, an error ("no
    such key") when the field is absent *)
Definition has {A} (f : option A) : result bool :=
  Some (match f with Some _ => true | None => false end).
Definition field {A} (f : option A) : result A := f.

(** A rule holds when it evaluates to [true]; [false] and an evaluation
    error both reject the object, with different entries in the report. *)
Definition holds (r : result bool) : bool :=
  match r with
  | Some true => true
  | _ => false
  end.

End cel.

(** ** The Kubernetes types the NodeClaim is built from *)
Module corev1.

(** [v1.NodeSelectorOperator] is a string type with six named values. *)
Definition NodeSelectorOperator : Type := string.
Definition NodeSelectorOpIn : NodeSelectorOperator := "In".
Definition NodeSelectorOpNotIn : NodeSelectorOperator := "NotIn".
Definition NodeSelectorOpExists : NodeSelectorOperator := "Exists".
Definition NodeSelectorOpDoesNotExist : NodeSelectorOperator := "DoesNotExist".
Definition NodeSelectorOpGt : NodeSelectorOperator := "Gt".
Definition NodeSelectorOpLt : NodeSelectorOperator := "Lt".

(** [Values] is tagged [omitempty]: [None] is the field left out of the
    object, which a nil and an empty Go slice are both sent as; [Some []] is
    an empty array written in the object. *)
Record NodeSelectorRequirement : Type := {
  Key : string;
  Operator : NodeSelectorOperator;
  Values : option (list string);
}.

Record Taint : Type := {
  TaintKey : string;
  TaintValue : string;
  TaintEffect : string;
  TimeAdded : option string;
}.

(** [v1.ResourceList]: resource name to quantity, a quantity in its
    serialized form *)
Abbreviation ResourceList := (gmap string string).

#[global] Instance NodeSelectorRequirement_eq_dec : EqDecision NodeSelectorRequirement.
Proof. solve_decision. Defined.
#[global] Instance Taint_eq_dec : EqDecision Taint.
Proof. solve_decision. Defined.

End corev1.

Module metav1.

Record TypeMeta : Type := {
  Kind : string;
  APIVersion : string;
}.

Record ObjectMeta : Type := {
  Name : string;
  Namespace : string;
  Labels : gmap string string;
}.

#[global] Instance TypeMeta_eq_dec : EqDecision TypeMeta.
Proof. solve_decision. Defined.
#[global] Instance ObjectMeta_eq_dec : EqDecision ObjectMeta.
Proof. solve_decision. Defined.

End metav1.

(** ** pkg/apis/v1/nodeclaim.go *)
Module v1.

Record NodeSelectorRequirementWithMinValues : Type := {
  NodeSelectorRequirement : corev1.NodeSelectorRequirement;
  MinValues : option Z;
}.

(** The fields of the inlined struct, as Go promotes them. *)
Definition Key (x : NodeSelectorRequirementWithMinValues) : string :=
  corev1.Key (NodeSelectorRequirement x).
Definition Operator (x : NodeSelectorRequirementWithMinValues) : corev1.NodeSelectorOperator :=
  corev1.Operator (NodeSelectorRequirement x).
Definition Values (x : NodeSelectorRequirementWithMinValues) : option (list string) :=
  corev1.Values (NodeSelectorRequirement x).

(** The values of a requirement as a list: none when the field is left
    out. *)
Definition valuesOf (x : NodeSelectorRequirementWithMinValues) : list string :=
  default [] (Values x).

Record ResourceRequirements : Type := {
  Requests : corev1.ResourceList;
}.

Record NodeClassReference : Type := {
  Kind : string;
  Name : string;
  Group : string;
}.

(** [Requirements] has no [omitempty]: [None] is the nil slice, sent as
    [null], which the API server takes as the field left out; [Some []] is
    the empty array.  [NodeClassRef] is a pointer: [None] is nil. *)
Record NodeClaimSpec : Type := {
  Taints : list corev1.Taint;
  StartupTaints : list corev1.Taint;
  Requirements : option (list NodeSelectorRequirementWithMinValues);
  Resources : ResourceRequirements;
  NodeClassRef : option NodeClassReference;
}.

(** The requirements of a spec as a list: none when the field is left
    out. *)
Definition requirementsOf (spec : NodeClaimSpec)
  : list NodeSelectorRequirementWithMinValues :=
  default [] (Requirements spec).

(** The spec with another list of requirements. *)
Definition withRequirements (spec : NodeClaimSpec)
    (requirements : list NodeSelectorRequirementWithMinValues) : NodeClaimSpec :=
  {| Taints := Taints spec; StartupTaints := StartupTaints spec;
     Requirements := Some requirements; Resources := Resources spec;
     NodeClassRef := NodeClassRef spec |}.

(** Modelled from the spec: [NodeClaimStatus] is declared in a file of the
    package that is not at hand; it holds "at minimum a node name, a
    provider identifier, and a set of timestamped conditions". *)
Record Condition : Type := {
  ConditionType : string;
  ConditionStatus : string;
  LastTransitionTime : string;
}.

Record NodeClaimStatus : Type := {
  NodeName : string;
  ProviderID : string;
  Conditions : list Condition;
}.

Record NodeClaim : Type := {
  TypeMeta : metav1.TypeMeta;
  ObjectMeta : metav1.ObjectMeta;
  Spec : NodeClaimSpec;
  Status : NodeClaimStatus;
}.

Record NodeClaimList : Type := {
  ListTypeMeta : metav1.TypeMeta;
  Items : list NodeClaim;
}.

#[global] Instance NodeSelectorRequirementWithMinValues_eq_dec :
  EqDecision NodeSelectorRequirementWithMinValues.
Proof. solve_decision. Defined.
#[global] Instance ResourceRequirements_eq_dec : EqDecision ResourceRequirements.
Proof. solve_decision. Defined.
#[global] Instance NodeClassReference_eq_dec : EqDecision NodeClassReference.
Proof. solve_decision. Defined.
#[global] Instance NodeClaimSpec_eq_dec : EqDecision NodeClaimSpec.
Proof. solve_decision. Defined.
#[global] Instance Condition_eq_dec : EqDecision Condition.
Proof. solve_decision. Defined.
#[global] Instance NodeClaimStatus_eq_dec : EqDecision NodeClaimStatus.
Proof. solve_decision. Defined.
#[global] Instance NodeClaim_eq_dec : EqDecision NodeClaim.
Proof. solve_decision. Defined.

(** *** The validation markers

    The markers become the schema of the resource, which the API server
    checks on every write of an object.  It checks the structural markers
    first ([required], [MaxItems], [Minimum], [Maximum]); when one of the
    errors found is a missing required field or too many items, the
    [XValidation] rules are not evaluated and the report says so;
    otherwise the rules are evaluated, and a rule that evaluates to
    [false] is reported with its message, a rule whose evaluation fails
    with an error is reported with that error.

    The entries of a report.  The order of the entries within the
    structural part is not part of any property below. *)
Inductive FieldError : Type :=
| Required (field : string)
| TooMany (field : string) (max : Z)
| NotInRange (index : nat) (field : string) (min max : Z)
| Invalid (field message : string)
| RuleError (field message : string)
| RulesNotChecked.

#[global] Instance FieldError_eq_dec : EqDecision FieldError.
Proof. solve_decision. Defined.

(** The errors after which the rules are not evaluated. *)
Definition blocking (e : FieldError) : bool :=
  match e with
  | Required _ | TooMany _ _ => true
  | _ => false
  end.

(** The entries that are about one element of the list of requirements:
    they name its position, or the error the evaluation of a rule ended
    with on it. *)
Definition elementwise (e : FieldError) : bool :=
  match e with
  | NotInRange _ _ _ _ | RuleError _ _ => true
  | _ => false
  end.

(** [XValidation] on [Requirements], first rule:
    [self.all(x, x.operator == 'In' ? x.values.size() != 0 : true)] *)
Definition inMessage : string :=
  "requirements with operator 'In' must have a value defined".
Definition inRule (self : list NodeSelectorRequirementWithMinValues) : cel.result bool :=
  cel.all self (λ x,
    cel.cond (cel.eq_string (cel.lit (Operator x)) (cel.lit "In"))
      (cel.ne_int (cel.size (cel.field (Values x))) (cel.lit 0))
      (cel.lit true)).

(** second rule:
    [self.all(x, (x.operator == 'Gt' || x.operator == 'Lt') ?
       (x.values.size() == 1 && int(x.values[0]) >= 0) : true)] *)
Definition gtLtMessage : string :=
  "requirements operator 'Gt' or 'Lt' must have a single positive integer value".
Definition gtLtRule (self : list NodeSelectorRequirementWithMinValues) : cel.result bool :=
  cel.all self (λ x,
    cel.cond (cel.or (cel.eq_string (cel.lit (Operator x)) (cel.lit "Gt"))
                     (cel.eq_string (cel.lit (Operator x)) (cel.lit "Lt")))
      (cel.and (cel.eq_int (cel.size (cel.field (Values x))) (cel.lit 1))
               (cel.ge_int (cel.int (cel.index (cel.field (Values x)) 0)) (cel.lit 0)))
      (cel.lit true)).

(** third rule:
    [self.all(x, (x.operator == 'In' && has(x.minValues)) ?
       x.values.size() >= x.minValues : true)] *)
Definition minValuesMessage : string :=
  "requirements with 'minValues' must have at least that many values specified in the 'values' field".
Definition minValuesRule (self : list NodeSelectorRequirementWithMinValues) : cel.result bool :=
  cel.all self (λ x,
    cel.cond (cel.and (cel.eq_string (cel.lit (Operator x)) (cel.lit "In"))
                      (cel.has (MinValues x)))
      (cel.ge_int (cel.size (cel.field (Values x))) (cel.field (MinValues x)))
      (cel.lit true)).

(** The entry for a rule.  On an update, the failure of a rule that does
    not look at the old value is not reported when the value the rule is
    attached to is unchanged ([ratcheted]); an evaluation error is. *)
Definition xvalidation (ratcheted : bool) (rule : cel.result bool)
    (field message : string) : list FieldError :=
  match rule with
  | Some true => []
  | Some false => if ratcheted then [] else [Invalid field message]
  | None => [RuleError field message]
  end.

(** [Minimum:=1] and [Maximum:=50] on [MinValues], for the requirement at
    position [index] *)
Definition validateMinValues (index : nat) (x : NodeSelectorRequirementWithMinValues)
  : list FieldError :=
  match MinValues x with
  | Some m => if (1 <=? m) && (m <=? 50) then [] else [NotInRange index "minValues" 1 50]
  | None => []
  end.

(** The structural markers on the list of requirements: those of its
    items, and [MaxItems:=100]. *)
Definition validateRequirements (self : list NodeSelectorRequirementWithMinValues)
  : list FieldError :=
  mjoin (imap validateMinValues self)
  ++ (if 100 <? Z.of_nat (length self) then [TooMany "requirements" 100] else []).

(** The three rules on the list of requirements. *)
Definition requirementRules (ratcheted : bool)
    (self : list NodeSelectorRequirementWithMinValues) : list FieldError :=
  xvalidation ratcheted (inRule self) "requirements" inMessage
  ++ xvalidation ratcheted (gtLtRule self) "requirements" gtLtMessage
  ++ xvalidation ratcheted (minValuesRule self) "requirements" minValuesMessage.

(** [+required] on [NodeClassRef] and on [Requirements]. *)
Definition validateRequired (spec : NodeClaimSpec) : list FieldError :=
  match NodeClassRef spec with
  | Some _ => []
  | None => [Required "nodeClassRef"]
  end
  ++ match Requirements spec with
     | Some _ => []
     | None => [Required "requirements"]
     end.

(** The structural markers of [NodeClaimSpec]. *)
Definition validateSchema (spec : NodeClaimSpec) : list FieldError :=
  match Requirements spec with
  | Some self => validateRequirements self
  | None => []
  end
  ++ validateRequired spec.

(** Validation of the spec of an object that is created. *)
Definition validateSpec (spec : NodeClaimSpec) : list FieldError :=
  let schema := validateSchema spec in
  schema
  ++ (if existsb blocking schema then [RulesNotChecked]
      else match Requirements spec with
           | Some self => requirementRules false self
           | None => []
           end).

(** Validation fails when it reports an error. *)
Definition validationFails (spec : NodeClaimSpec) : Prop := validateSpec spec ≠ [].

(** The values a [Gt] or [Lt] requirement may carry: exactly one, which
    parses as an integer that is not negative. *)
Definition singleNonNegativeInt (values : list string) : Prop :=
  ∃ v n, values = [v] ∧ strconv.ParseInt v = Some n ∧ 0 ≤ n.

(** [XValidation] on [Spec]: [self == oldSelf], a rule on the transition
    from the stored object to the proposed one. *)
Definition immutableMessage : string := "spec is immutable".
Definition immutableRule (self oldSelf : NodeClaimSpec) : cel.result bool :=
  cel.lit (bool_decide (self = oldSelf)).

(** The structural errors below a value that an update leaves unchanged
    are not reported. *)
Definition ratchet (unchanged : bool) (errs : list FieldError) : list FieldError :=
  if unchanged then [] else errs.

(** Validation of the spec of an update of [old] to [new]: as for a
    creation, with the errors of unchanged values left out, and with the
    transition rule on the spec, which is evaluated with the other rules
    and, looking at the old value, is reported whenever it fails. *)
Definition validateUpdate (old new : NodeClaim) : list FieldError :=
  let self := Spec new in
  let oldSelf := Spec old in
  let sameSpec := bool_decide (self = oldSelf) in
  let sameRequirements := bool_decide (Requirements self = Requirements oldSelf) in
  let schema :=
    ratchet sameSpec
      (match Requirements self with
       | Some l => ratchet sameRequirements (validateRequirements l)
       | None => []
       end
       ++ validateRequired self) in
  schema
  ++ (if existsb blocking schema then [RulesNotChecked]
      else xvalidation false (immutableRule self oldSelf) "spec" immutableMessage
           ++ match Requirements self with
              | Some l => requirementRules sameRequirements l
              | None => []
              end).

(** Modelled from the spec: the write boundary of the Resource Store,
    which is not part of the package.  "Rejected synchronously, write has
    no effect": a proposal whose validation reports an error is rejected
    with the report and the stored object stays; an accepted one replaces
    metadata and spec.  The status is "written only by the
    provisioning/lifecycle collaborator" (it is a subresource,
    [+kubebuilder:subresource:status]) and is not written through this
    path. *)
Definition update (stored proposed : NodeClaim) : NodeClaim * list FieldError :=
  match validateUpdate stored proposed with
  | [] => ({| TypeMeta := TypeMeta proposed; ObjectMeta := ObjectMeta proposed;
              Spec := Spec proposed; Status := Status stored |}, [])
  | errs => (stored, errs)
  end.

End v1.

(** ** The packages the controller is written against *)

(** [types.NamespacedName] and [reconcile.Request], [reconcile.Result] *)
Module reconcile.

Record NamespacedName : Type := {
  Namespace : string;
  Name : string;
}.

Record Request : Type := {
  RequestNamespacedName : NamespacedName;
}.

(** [req.Name], promoted from the embedded [NamespacedName] *)
Definition RequestName (req : Request) : string := Name (RequestNamespacedName req).

(** [RequeueAfter] is a [time.Duration], in nanoseconds. *)
Record Result : Type := {
  Requeue : bool;
  RequeueAfter : Z;
}.

(** [reconcile.Result{}] *)
Definition zero : Result := {| Requeue := false; RequeueAfter := 0 |}.

#[global] Instance NamespacedName_eq_dec : EqDecision NamespacedName.
Proof. solve_decision. Defined.
#[global] Instance Request_eq_dec : EqDecision Request.
Proof. solve_decision. Defined.
#[global] Instance Result_eq_dec : EqDecision Result.
Proof. solve_decision. Defined.

#[global] Instance Request_countable : Countable Request.
Proof.
  refine (inj_countable'
            (λ r, (Namespace (RequestNamespacedName r), Name (RequestNamespacedName r)))
            (λ p, {| RequestNamespacedName := {| Namespace := p.1; Name := p.2 |} |}) _).
  by intros [[??]].
Defined.

End reconcile.

(** The context a cycle runs in: the logger it carries and the controller
    name [injection.WithControllerName] stores in it. *)
Module context.

Record Logger : Type := {
  names : list string;
  keysAndValues : list (string * string);
}.

Record Context : Type := {
  logger : Logger;
  controllerName : string;
}.

Definition WithName (l : Logger) (name : string) : Logger :=
  {| names := names l ++ [name]; keysAndValues := keysAndValues l |}.
Definition WithValues (l : Logger) (key value : string) : Logger :=
  {| names := names l; keysAndValues := keysAndValues l ++ [(key, value)] |}.
Definition FromContext (ctx : Context) : Logger := logger ctx.
Definition IntoContext (ctx : Context) (l : Logger) : Context :=
  {| logger := l; controllerName := controllerName ctx |}.
Definition WithControllerName (ctx : Context) (name : string) : Context :=
  {| logger := logger ctx; controllerName := name |}.

End context.

(** What the controller does not define itself: Go's error values with
    [errors.IsNotFound] of apimachinery, the cluster state [state.Cluster]
    with the two methods the controller calls, the package's constant
    [stateRetryPeriod], and what the manager answers when a controller is
    added to it, given the names of the controllers it holds. *)
Class Collaborators : Type := {
  error : Type;
  IsNotFound : error → bool;
  Cluster : Type;
  DeleteNodeClaim : Cluster → string → Cluster;
  UpdateNodeClaim : Cluster → v1.NodeClaim → Cluster;
  stateRetryPeriod : Z;
  managerAdd : list string → string → option error;
}.

(** [client.Client] of controller-runtime *)
Module client.

(** The methods of the interface, as calls on the resource store. *)
Inductive Call : Type :=
| Get (key : reconcile.NamespacedName)
| List
| Create (obj : v1.NodeClaim)
| Delete (obj : v1.NodeClaim)
| Update (obj : v1.NodeClaim)
| Patch (obj : v1.NodeClaim)
| DeleteAllOf
| StatusUpdate (obj : v1.NodeClaim)
| StatusPatch (obj : v1.NodeClaim).

(** [Get] and [List] read; every other method writes. *)
Definition writes (c : Call) : bool :=
  match c with
  | Get _ | List => false
  | _ => true
  end.

(** A client answers a [Get] with an error or with the object. *)
Record Client `{Collaborators} : Type := {
  get : context.Context → reconcile.NamespacedName → error + v1.NodeClaim;
}.

(** [client.IgnoreNotFound] *)
Definition IgnoreNotFound `{Collaborators} (err : option error) : option error :=
  match err with
  | Some e => if IsNotFound e then None else Some e
  | None => None
  end.

End client.

(** ** The informer package: NodeClaimController

    The controller is written against the package [v1beta1] of the API,
    whose [NodeClaim] it fetches and passes on without looking into it; the
    [NodeClaim] of [v1] above stands for it. *)
Module informer.

(** Every call a cycle makes on a collaborator. *)
Inductive Call : Type :=
| KubeClient (c : client.Call)
| ClusterDeleteNodeClaim (name : string)
| ClusterUpdateNodeClaim (nodeClaim : v1.NodeClaim).

Section Controller.
Context `{Collaborators}.

(** The cluster state the controller points to, and the calls made so
    far. *)
Record World : Type := {
  cluster : Cluster;
  calls : list Call;
}.

Definition M (A : Type) : Type := World → A * World.
Definition ret {A} (a : A) : M A := λ w, (a, w).
Definition bind {A B} (m : M A) (k : A → M B) : M B :=
  λ w, let '(a, w') := m w in k a w'.
Definition call (c : Call) : M unit :=
  λ w, (tt, {| cluster := cluster w; calls := calls w ++ [c] |}).
Definition modifyCluster (f : Cluster → Cluster) : M unit :=
  λ w, (tt, {| cluster := f (cluster w); calls := calls w |}).

(** The [cluster] field of the struct points to the one cluster state of
    the process: the [cluster] of the world. *)
Record NodeClaimController : Type := {
  kubeClient : client.Client;
}.

End Controller.

Declare Scope go_scope.
Delimit Scope go_scope with go.
Notation "'let*' x ':=' m 'in' k" := (bind m (λ x, k))
  (at level 10, x name, m at level 100, k at level 200) : go_scope.
Notation "m ';;' k" := (bind m (λ _, k))
  (at level 100, k at level 200, right associativity) : go_scope.

Section Reconcile.
Context `{Collaborators}.
Local Open Scope go_scope.

(** [c.kubeClient.Get(ctx, key, nodeClaim)] *)
Definition kubeClientGet (c : NodeClaimController) (ctx : context.Context)
    (key : reconcile.NamespacedName) : M (error + v1.NodeClaim) :=
  call (KubeClient (client.Get key));;
  ret (client.get (kubeClient c) ctx key).

(** [c.cluster.DeleteNodeClaim(name)] *)
Definition clusterDeleteNodeClaim (name : string) : M unit :=
  call (ClusterDeleteNodeClaim name);;
  modifyCluster (λ cl, DeleteNodeClaim cl name).

(** [c.cluster.UpdateNodeClaim(nodeClaim)] *)
Definition clusterUpdateNodeClaim (nodeClaim : v1.NodeClaim) : M unit :=
  call (ClusterUpdateNodeClaim nodeClaim);;
  modifyCluster (λ cl, UpdateNodeClaim cl nodeClaim).

Definition Reconcile (c : NodeClaimController) (ctx : context.Context)
    (req : reconcile.Request) : M (reconcile.Result * option error) :=
  let ctx := context.IntoContext ctx
               (context.WithValues
                  (context.WithName (context.FromContext ctx) "state.nodeclaim")
                  "nodeclaim" (reconcile.RequestName req)) in
  let ctx := context.WithControllerName ctx "state.nodeclaim" in
  let* got := kubeClientGet c ctx (reconcile.RequestNamespacedName req) in
  match got with
  | inl err =>
      (if IsNotFound err
       then clusterDeleteNodeClaim (reconcile.RequestName req)
       else ret tt);;
      ret (reconcile.zero, client.IgnoreNotFound (Some err))
  | inr nodeClaim =>
      clusterUpdateNodeClaim nodeClaim;;
      ret ({| reconcile.Requeue := false;
              reconcile.RequeueAfter := stateRetryPeriod |}, None)
  end.

(** The context [Reconcile] hands to the client, and the answer it
    gets: the fetch of the cycle. *)
Definition reconcileContext (ctx : context.Context) (req : reconcile.Request)
  : context.Context :=
  context.WithControllerName
    (context.IntoContext ctx
       (context.WithValues
          (context.WithName (context.FromContext ctx) "state.nodeclaim")
          "nodeclaim" (reconcile.RequestName req)))
    "state.nodeclaim".

Definition fetch (c : NodeClaimController) (ctx : context.Context)
    (req : reconcile.Request) : error + v1.NodeClaim :=
  client.get (kubeClient c) (reconcileContext ctx req)
    (reconcile.RequestNamespacedName req).

(** The calls of a trace by collaborator. *)
Definition clientCalls (t : list Call) : list client.Call :=
  omap (λ c, match c with KubeClient k => Some k | _ => None end) t.
Definition deletes (t : list Call) : list string :=
  omap (λ c, match c with ClusterDeleteNodeClaim n => Some n | _ => None end) t.
Definition upserts (t : list Call) : list v1.NodeClaim :=
  omap (λ c, match c with ClusterUpdateNodeClaim n => Some n | _ => None end) t.

(** When controller-runtime requeues the key after a cycle that
    returned no error: after [RequeueAfter] when that is positive. *)
Definition resyncAfter (r : reconcile.Result) : option Z :=
  if 0 <? reconcile.RequeueAfter r then Some (reconcile.RequeueAfter r) else None.

End Reconcile.

(** *** Registration with the manager *)

(** [controller.Options] *)
Record Options : Type := {
  MaxConcurrentReconciles : Z;
}.

(** A controller as the manager holds it. *)
Record Controller (R : Type) : Type := {
  Name : string;
  Kind : string;
  ControllerOptions : Options;
  Do : R;
}.
Arguments Name {R} _.
Arguments Kind {R} _.
Arguments ControllerOptions {R} _.
Arguments Do {R} _.

Definition Manager (R : Type) : Type := list (Controller R).

(** The builder of controller-runtime: [NewControllerManagedBy],
    [Named], [For] and [WithOptions] fill it in, [Complete] builds the
    controller and adds it to the manager. *)
Record Builder (R : Type) : Type := {
  mgr : Manager R;
  name : string;
  forInput : option string;
  options : Options;
}.
Arguments mgr {R} _.
Arguments name {R} _.
Arguments forInput {R} _.
Arguments options {R} _.

Section Register.
Context `{Collaborators}.
Context {R : Type}.

Definition NewControllerManagedBy (m : Manager R) : Builder R :=
  {| mgr := m; name := ""; forInput := None;
     options := {| MaxConcurrentReconciles := 0 |} |}.
Definition Named (b : Builder R) (n : string) : Builder R :=
  {| mgr := mgr b; name := n; forInput := forInput b; options := options b |}.
Definition For (b : Builder R) (kind : string) : Builder R :=
  {| mgr := mgr b; name := name b; forInput := Some kind; options := options b |}.
Definition WithOptions (b : Builder R) (o : Options) : Builder R :=
  {| mgr := mgr b; name := name b; forInput := forInput b; options := o |}.

(** [Complete]: a concurrency bound that is not positive defaults to
    1; the manager then takes the controller or answers with an
    error. *)
Definition Complete (b : Builder R) (r : R) : Manager R * option error :=
  let n := MaxConcurrentReconciles (options b) in
  let ctrl := {| Name := name b; Kind := default "" (forInput b);
                 ControllerOptions :=
                   {| MaxConcurrentReconciles := if n <=? 0 then 1 else n |};
                 Do := r |} in
  match managerAdd (Name <$> mgr b) (name b) with
  | Some err => (mgr b, Some err)
  | None => (mgr b ++ [ctrl], None)
  end.

End Register.

Definition Register `{Collaborators} (c : NodeClaimController)
    (m : Manager NodeClaimController) : Manager NodeClaimController * option error :=
  Complete
    (WithOptions
       (For (Named (NewControllerManagedBy m) "state.nodeclaim") "NodeClaim")
       {| MaxConcurrentReconciles := 10 |})
    c.

(** *** The workers of a started controller

    A started controller runs [MaxConcurrentReconciles] workers on a work
    queue of client-go: a worker takes a key with [Get], runs the cycle
    for it and hands the key back with [Done]. *)
Record Queue : Type := {
  queue : list reconcile.Request;
  dirty : gset reconcile.Request;
  processing : gset reconcile.Request;
}.

Definition NewQueue : Queue := {| queue := []; dirty := ∅; processing := ∅ |}.

Definition QueueAdd (q : Queue) (item : reconcile.Request) : Queue :=
  if decide (item ∈ dirty q) then q
  else if decide (item ∈ processing q)
  then {| queue := queue q; dirty := dirty q ∪ {[item]}; processing := processing q |}
  else {| queue := queue q ++ [item]; dirty := dirty q ∪ {[item]};
          processing := processing q |}.

(** [None] when the queue is empty: the worker waits. *)
Definition QueueGet (q : Queue) : option (reconcile.Request * Queue) :=
  match queue q with
  | [] => None
  | item :: rest =>
      Some (item, {| queue := rest; dirty := dirty q ∖ {[item]};
                     processing := processing q ∪ {[item]} |})
  end.

Definition QueueDone (q : Queue) (item : reconcile.Request) : Queue :=
  if decide (item ∈ dirty q)
  then {| queue := queue q ++ [item]; dirty := dirty q;
          processing := processing q ∖ {[item]} |}
  else {| queue := queue q; dirty := dirty q; processing := processing q ∖ {[item]} |}.

(** The key each worker is running a cycle for, if any. *)
Record Pool : Type := {
  workqueue : Queue;
  workers : list (option reconcile.Request);
}.

Definition Start {R} (ctrl : Controller R) : Pool :=
  {| workqueue := NewQueue;
     workers := replicate (Z.to_nat (MaxConcurrentReconciles (ControllerOptions ctrl))) None |}.

(** A key is added (an event of the watch, or a requeue), an idle worker
    takes the next key, or a worker finishes its cycle. *)
Inductive step : Pool → Pool → Prop :=
| step_add p item :
    step p {| workqueue := QueueAdd (workqueue p) item; workers := workers p |}
| step_get p i item q' :
    workers p !! i = Some None →
    QueueGet (workqueue p) = Some (item, q') →
    step p {| workqueue := q'; workers := <[i := Some item]> (workers p) |}
| step_done p i item :
    workers p !! i = Some (Some item) →
    step p {| workqueue := QueueDone (workqueue p) item;
              workers := <[i := None]> (workers p) |}.

(** The keys whose cycles are executing. *)
Definition inFlight (p : Pool) : list reconcile.Request := omap id (workers p).

(** What holds of a pool of [n] workers at every moment: the workers are
    [n]; the keys in flight are distinct and are the queue's [processing]
    set; the keys waiting in the queue are distinct, marked dirty and not
    in flight. *)
Definition poolInvariant (n : nat) (p : Pool) : Prop :=
  length (workers p) = n
  ∧ NoDup (inFlight p)
  ∧ (∀ item, item ∈ inFlight p ↔ item ∈ processing (workqueue p))
  ∧ NoDup (queue (workqueue p))
  ∧ (∀ item, item ∈ queue (workqueue p) →
             item ∈ dirty (workqueue p) ∧ item ∉ processing (workqueue p)).

End informer.

(** ** Sample objects *)
Module samples.
Import v1.

Definition nodeClassRef : NodeClassReference :=
  {| Kind := "EC2NodeClass"; Name := "default"; Group := "karpenter.k8s.aws" |}.

Definition requirement (key : string) (operator : corev1.NodeSelectorOperator)
    (values : option (list string)) (minValues : option Z)
  : NodeSelectorRequirementWithMinValues :=
  {| NodeSelectorRequirement :=
       {| corev1.Key := key; corev1.Operator := operator; corev1.Values := values |};
     MinValues := minValues |}.

Definition specOf (requirements : list NodeSelectorRequirementWithMinValues)
  : NodeClaimSpec :=
  {| Taints := []; StartupTaints := []; Requirements := Some requirements;
     Resources := {| Requests := ∅ |}; NodeClassRef := Some nodeClassRef |}.

Definition nodeClaimOf (name : string) (spec : NodeClaimSpec) : NodeClaim :=
  {| TypeMeta := {| metav1.Kind := "NodeClaim"; metav1.APIVersion := "karpenter.sh/v1" |};
     ObjectMeta := {| metav1.Name := name; metav1.Namespace := ""; metav1.Labels := ∅ |};
     Spec := spec;
     Status := {| NodeName := ""; ProviderID := ""; Conditions := [] |} |}.

Definition zoneIn (minValues : Z) : NodeSelectorRequirementWithMinValues :=
  requirement "zone" "In" (Some ["a"; "b"]) (Some minValues).
Definition zoneExists : NodeSelectorRequirementWithMinValues :=
  requirement "zone" "Exists" None (Some 1).
Definition cpuGt (value : string) : NodeSelectorRequirementWithMinValues :=
  requirement "cpu" "Gt" (Some [value]) None.

(** Collaborators to run the controller against: two errors, of which
    one is a not-found; a cluster that keeps the last NodeClaim seen under
    each name; a retry period of one minute; a manager that refuses a
    second controller of the same name. *)
Inductive sampleError : Type := notFound | timeout | alreadyRegistered.

Definition collaborators : Collaborators :=
  {| error := sampleError;
     IsNotFound e := match e with notFound => true | _ => false end;
     Cluster := gmap string NodeClaim;
     DeleteNodeClaim cl name := delete name cl;
     UpdateNodeClaim cl nodeClaim := <[metav1.Name (ObjectMeta nodeClaim) := nodeClaim]> cl;
     stateRetryPeriod := 60 * 1000000000;
     managerAdd names name :=
       if decide (name ∈ names) then Some alreadyRegistered else None |}.

Definition ng1 : NodeClaim := nodeClaimOf "ng-1" (specOf [zoneIn 2]).


Definition request (name : string) : reconcile.Request :=
  {| reconcile.RequestNamespacedName :=
       {| reconcile.Namespace := ""; reconcile.Name := name |} |}.

Definition background : context.Context :=
  {| context.logger := {| context.names := []; context.keysAndValues := [] |};
     context.controllerName := "" |}.

(** A controller whose client gives the same answer to every [Get]. *)
Definition controllerOn (answer : @error collaborators + NodeClaim)
  : @informer.NodeClaimController collaborators :=
  @informer.Build_NodeClaimController collaborators
    (@client.Build_Client collaborators (λ _ _, answer)).

Definition emptyWorld : @informer.World collaborators :=
  @informer.Build_World collaborators ∅ [].

End samples.

(** * Properties *)

(** ** The CEL fragment *)
Module cel_facts.

Lemma holds_and a b : cel.holds (cel.and a b) = cel.holds a && cel.holds b.
Proof. by destruct a as [[]|], b as [[]|]. Qed.

Lemma holds_true r : cel.holds r = true ↔ r = Some true.
Proof. destruct r as [[]|]; simpl; split; congruence. Qed.

(** [all] holds exactly when the predicate evaluates to [true] on every
    element: a [false] and an error both make it fail. *)
Lemma holds_all {A} (l : list A) p :
  cel.holds (cel.all l p) = true ↔ ∀ x, x ∈ l → p x = Some true.
Proof.
  induction l as [|a l IH]; simpl.
  - split; [intros _ x Hx; by apply elem_of_nil in Hx | done].
  - rewrite holds_and, andb_true_iff, IH, holds_true. split.
    + intros [Ha Hl] x [->|Hx]%elem_of_cons; auto.
    + intros Hall. split; [apply Hall; left | intros x Hx; apply Hall; by right].
Qed.

Lemma fails_all {A} (l : list A) p :
  cel.holds (cel.all l p) = false ↔ ∃ x, x ∈ l ∧ p x ≠ Some true.
Proof.
  induction l as [|a l IH]; simpl.
  - split; [done | intros (x & Hx & _); by apply elem_of_nil in Hx].
  - rewrite holds_and, andb_false_iff, IH, <- not_true_iff_false, holds_true.
    split.
    + intros [Ha | (x & Hx & Hp)]; [exists a | exists x];
        split; auto; [left | by right].
    + intros (x & [->|Hx]%elem_of_cons & Hp); [by left | right; eauto].
Qed.

Lemma eq_string_lit a b :
  cel.eq_string (cel.lit a) (cel.lit b) = Some (bool_decide (a = b)).
Proof. reflexivity. Qed.

Lemma all_true {A} (l : list A) p :
  cel.all l p = Some true ↔ ∀ x, x ∈ l → p x = Some true.
Proof. by rewrite <- holds_true, holds_all. Qed.

Lemma and_false a b :
  cel.and a b = Some false ↔ a = Some false ∨ b = Some false.
Proof. destruct a as [[]|], b as [[]|]; simpl; split; (done || tauto || intros [|]; done). Qed.

(** [all] is [false] exactly when the predicate is [false] on some
    element, whatever errors there are on others. *)
Lemma all_false {A} (l : list A) p :
  cel.all l p = Some false ↔ ∃ x, x ∈ l ∧ p x = Some false.
Proof.
  induction l as [|a l IH]; simpl.
  - split; [done | intros (x & Hx & _); by apply elem_of_nil in Hx].
  - rewrite and_false, IH. split.
    + intros [Ha | (x & Hx & Hp)]; [exists a | exists x]; split; auto; [left | by right].
    + intros (x & [->|Hx]%elem_of_cons & Hp); [by left | right; eauto].
Qed.

Lemma and_swap a b c : cel.and a (cel.and b c) = cel.and b (cel.and a c).
Proof. by destruct a as [[]|], b as [[]|], c as [[]|]. Qed.

(** The order of the elements does not matter to [all]. *)
Lemma all_perm {A} (l l' : list A) p : l ≡ₚ l' → cel.all l p = cel.all l' p.
Proof.
  induction 1 as [|a l l' _ IH|a b l|l l' l'' _ IH1 _ IH2]; simpl.
  - done.
  - by rewrite IH.
  - apply and_swap.
  - by rewrite IH1.
Qed.

End cel_facts.

(** ** Validation of a NodeClaim spec *)
Module validation.
Import v1.

Section Elementwise.
Variable x : NodeSelectorRequirementWithMinValues.

(** The body of the first rule on one requirement. *)
Lemma in_body_true :
  cel.cond (cel.eq_string (cel.lit (Operator x)) (cel.lit "In"))
    (cel.ne_int (cel.size (cel.field (Values x))) (cel.lit 0)) (cel.lit true)
  = Some true
  ↔ (Operator x = "In" → valuesOf x ≠ []).
Proof.
  rewrite cel_facts.eq_string_lit. unfold valuesOf, cel.field.
  case_bool_decide as Hop; simpl.
  - destruct (Values x) as [[|v vs]|]; simpl; split; try done;
      intros Hv; by destruct Hv.
  - split; done.
Qed.

Lemma in_body_false :
  cel.cond (cel.eq_string (cel.lit (Operator x)) (cel.lit "In"))
    (cel.ne_int (cel.size (cel.field (Values x))) (cel.lit 0)) (cel.lit true)
  = Some false
  ↔ Operator x = "In" ∧ Values x = Some [].
Proof.
  rewrite cel_facts.eq_string_lit. unfold cel.field.
  case_bool_decide as Hop; simpl.
  - destruct (Values x) as [[|v vs]|]; simpl; split; try done; by intros [_ [=]].
  - split; [done | by intros [? _]].
Qed.

(** The body of the second rule on one requirement. *)
Lemma gtLt_body_true :
  cel.cond (cel.or (cel.eq_string (cel.lit (Operator x)) (cel.lit "Gt"))
                   (cel.eq_string (cel.lit (Operator x)) (cel.lit "Lt")))
    (cel.and (cel.eq_int (cel.size (cel.field (Values x))) (cel.lit 1))
             (cel.ge_int (cel.int (cel.index (cel.field (Values x)) 0)) (cel.lit 0)))
    (cel.lit true)
  = Some true
  ↔ (Operator x = "Gt" ∨ Operator x = "Lt" → singleNonNegativeInt (valuesOf x)).
Proof.
  rewrite !cel_facts.eq_string_lit.
  assert (Hbody :
    cel.and (cel.eq_int (cel.size (cel.field (Values x))) (cel.lit 1))
            (cel.ge_int (cel.int (cel.index (cel.field (Values x)) 0)) (cel.lit 0))
    = Some true
    ↔ singleNonNegativeInt (valuesOf x)).
  { unfold singleNonNegativeInt, valuesOf, cel.field.
    destruct (Values x) as [[|v [|w vs]]|]; simpl.
    - split; [done | by intros (? & ? & ? & _)].
    - destruct (strconv.ParseInt v) as [n|] eqn:Hn; simpl.
      + destruct (n >=? 0) eqn:Hge; split; try done.
        * intros _. exists v, n. repeat split; [done | by apply Z.geb_le].
        * intros (? & n' & [= <-] & Hn' & Hpos).
          rewrite Hn in Hn'. injection Hn' as <-.
          apply Z.geb_le in Hpos. congruence.
      + split; [done | intros (? & ? & [= <-] & Hn' & _); congruence].
    - destruct (Pos.of_succ_nat (length vs)); simpl;
        (split; [done | by intros (? & ? & ? & _)]).
    - split; [done | by intros (? & ? & ? & _)]. }
  do 2 case_bool_decide; simpl; rewrite ?Hbody; split; intros; tauto || auto.
Qed.

(** The body of the third rule on one requirement. *)
Lemma minValues_body_true :
  cel.cond (cel.and (cel.eq_string (cel.lit (Operator x)) (cel.lit "In"))
                    (cel.has (MinValues x)))
    (cel.ge_int (cel.size (cel.field (Values x))) (cel.field (MinValues x)))
    (cel.lit true)
  = Some true
  ↔ (Operator x = "In" → ∀ m, MinValues x = Some m →
       is_Some (Values x) ∧ m ≤ Z.of_nat (length (valuesOf x))).
Proof.
  rewrite cel_facts.eq_string_lit. unfold valuesOf, cel.field.
  case_bool_decide as Hop; destruct (MinValues x) as [m|]; simpl;
    try (split; done).
  destruct (Values x) as [vs|]; simpl.
  - destruct (_ >=? m) eqn:Hge; split; try done.
    + intros _ _ m' [= <-]. split; [done | by apply Z.geb_le].
    + intros Hm. destruct (Hm Hop m eq_refl) as [_ Hle%Z.geb_le]. congruence.
  - split; [done|]. intros Hm. by destruct (Hm Hop m eq_refl) as [[? [=]] _].
Qed.

Lemma minValues_body_false :
  cel.cond (cel.and (cel.eq_string (cel.lit (Operator x)) (cel.lit "In"))
                    (cel.has (MinValues x)))
    (cel.ge_int (cel.size (cel.field (Values x))) (cel.field (MinValues x)))
    (cel.lit true)
  = Some false
  ↔ Operator x = "In"
    ∧ ∃ m vs, MinValues x = Some m ∧ Values x = Some vs
              ∧ Z.of_nat (length vs) < m.
Proof.
  rewrite cel_facts.eq_string_lit. unfold cel.field.
  case_bool_decide as Hop; destruct (MinValues x) as [m|]; simpl.
  - destruct (Values x) as [vs|]; simpl.
    + destruct (_ >=? m) eqn:Hge; split; try done.
      * intros [_ (m' & vs' & [= <-] & [= <-] & Hlt)].
        apply Z.geb_le in Hge. lia.
      * intros _. split; [done|]. exists m, vs. split_and!; try done.
        destruct (Z.geb_spec (Z.of_nat (length vs)) m); [done | lia].
    + split; [done | by intros [_ (? & ? & _ & [=] & _)]].
  - split; [done | by intros [_ (? & ? & [=] & _)]].
  - split; [done | by intros [? _]].
  - split; [done | by intros [? _]].
Qed.

End Elementwise.

(** *** The entries of a report *)

Lemma elem_of_xvalidation e ratcheted rule field message :
  e ∈ xvalidation ratcheted rule field message
  ↔ (rule = Some false ∧ ratcheted = false ∧ e = Invalid field message)
    ∨ (rule = None ∧ e = RuleError field message).
Proof.
  unfold xvalidation. destruct rule as [[]|]; [|destruct ratcheted|];
    rewrite ?list_elem_of_singleton; split;
    try (by intros ?%elem_of_nil); try (by intros [(? & ? & ?) | [? ?]]); auto.
Qed.

Lemma xvalidation_nil rule field message :
  xvalidation false rule field message = [] ↔ rule = Some true.
Proof. unfold xvalidation. by destruct rule as [[]|]. Qed.

Lemma elem_of_validateMinValues e i x :
  e ∈ validateMinValues i x
  ↔ e = NotInRange i "minValues" 1 50
    ∧ ∃ m, MinValues x = Some m ∧ ¬ (1 ≤ m ≤ 50).
Proof.
  unfold validateMinValues. destruct (MinValues x) as [m|].
  - destruct (1 <=? m) eqn:Hlo, (m <=? 50) eqn:Hhi; simpl;
      rewrite ?list_elem_of_singleton; split;
      try (by intros ?%elem_of_nil); try (intros [_ (? & [= <-] & ?)]; lia);
      try (by intros [? _]);
      (intros ->; split; [done|]; exists m; split; [done|lia]).
  - split; [by intros ?%elem_of_nil | by intros [_ (? & [=] & _)]].
Qed.

Lemma elem_of_validateRequirements e self :
  e ∈ validateRequirements self
  ↔ (∃ i x m, self !! i = Some x ∧ MinValues x = Some m ∧ ¬ (1 ≤ m ≤ 50)
              ∧ e = NotInRange i "minValues" 1 50)
    ∨ (e = TooMany "requirements" 100 ∧ 100 < Z.of_nat (length self)).
Proof.
  unfold validateRequirements. rewrite elem_of_app, list_elem_of_join. split.
  - intros [(errs & He & Herrs) | Hmax].
    + apply elem_of_lookup_imap in Herrs as (i & x & -> & Hx).
      apply elem_of_validateMinValues in He as [-> (m & Hm & Hout)].
      left. eauto 10.
    + destruct (Z.ltb_spec 100 (Z.of_nat (length self)));
        [apply list_elem_of_singleton in Hmax | by apply elem_of_nil in Hmax].
      by right.
  - intros [(i & x & m & Hx & Hm & Hout & ->) | [-> Hlen%Z.ltb_lt]].
    + left. exists (validateMinValues i x). split.
      * apply elem_of_validateMinValues. eauto.
      * by apply elem_of_lookup_imap_2.
    + right. rewrite Hlen. by left.
Qed.

Lemma elem_of_validateRequired e spec :
  e ∈ validateRequired spec
  ↔ (e = Required "nodeClassRef" ∧ NodeClassRef spec = None)
    ∨ (e = Required "requirements" ∧ Requirements spec = None).
Proof.
  unfold validateRequired. rewrite elem_of_app.
  destruct (NodeClassRef spec), (Requirements spec);
    rewrite ?elem_of_nil, ?list_elem_of_singleton; naive_solver.
Qed.

Lemma elem_of_validateSchema e spec :
  e ∈ validateSchema spec
  ↔ e ∈ validateRequirements (requirementsOf spec) ∨ e ∈ validateRequired spec.
Proof.
  unfold validateSchema, requirementsOf. rewrite elem_of_app.
  by destruct (Requirements spec).
Qed.

Lemma existsb_false {A} (f : A → bool) (l : list A) :
  existsb f l = false ↔ ∀ x, x ∈ l → f x = false.
Proof.
  induction l as [|a l IH]; simpl.
  - split; [intros _ x Hx; by apply elem_of_nil in Hx | done].
  - rewrite orb_false_iff, IH. split.
    + intros [Ha Hl] x [->|Hx]%elem_of_cons; auto.
    + intros Hall. split; [apply Hall; left | intros x Hx; apply Hall; by right].
Qed.

(** The rules are evaluated exactly when the requirements are there, at
    most 100, and the [nodeClassRef] is there. *)
Lemma rules_checked spec :
  existsb blocking (validateSchema spec) = false
  ↔ is_Some (Requirements spec)
    ∧ Z.of_nat (length (requirementsOf spec)) ≤ 100
    ∧ is_Some (NodeClassRef spec).
Proof.
  rewrite existsb_false. split.
  - intros Hnone. split_and!.
    + destruct (Requirements spec) eqn:Hreq; [done|].
      discriminate (Hnone (Required "requirements")).
      apply elem_of_validateSchema. right. apply elem_of_validateRequired. auto.
    + destruct (decide (Z.of_nat (length (requirementsOf spec)) ≤ 100)); [done|].
      discriminate (Hnone (TooMany "requirements" 100)).
      apply elem_of_validateSchema. left. apply elem_of_validateRequirements.
      right. split; [done | lia].
    + destruct (NodeClassRef spec) eqn:Href; [done|].
      discriminate (Hnone (Required "nodeClassRef")).
      apply elem_of_validateSchema. right. apply elem_of_validateRequired. auto.
  - intros ([l Hreq] & Hlen & [ref Href]) e.
    rewrite elem_of_validateSchema, elem_of_validateRequirements,
      elem_of_validateRequired.
    intros [[(i & x & m & _ & _ & _ & ->) | [_ ?]] | [[_ ?] | [_ ?]]];
      [done | lia | congruence | congruence].
Qed.

Lemma elem_of_validateSpec e spec :
  e ∈ validateSpec spec
  ↔ e ∈ validateSchema spec
    ∨ (existsb blocking (validateSchema spec) = true ∧ e = RulesNotChecked)
    ∨ (existsb blocking (validateSchema spec) = false
       ∧ e ∈ requirementRules false (requirementsOf spec)).
Proof.
  unfold validateSpec, requirementsOf. rewrite elem_of_app.
  destruct (existsb blocking (validateSchema spec)) eqn:Hblock.
  - rewrite list_elem_of_singleton. split; [intros [|]; auto | ].
    intros [|[[_ ?]|[[=] _]]]; auto.
  - destruct (Requirements spec) as [l|]; simpl.
    + split; [intros [|]; auto | intros [|[[[=] _]|[_ ?]]]; auto].
    + split; [intros [|?%elem_of_nil]; auto; done | ].
      intros [|[[[=] _]|[_ ?%elem_of_nil]]]; auto; done.
Qed.

Lemma elem_of_requirementRules e ratcheted self :
  e ∈ requirementRules ratcheted self
  ↔ e ∈ xvalidation ratcheted (inRule self) "requirements" inMessage
    ∨ e ∈ xvalidation ratcheted (gtLtRule self) "requirements" gtLtMessage
    ∨ e ∈ xvalidation ratcheted (minValuesRule self) "requirements" minValuesMessage.
Proof. unfold requirementRules. by rewrite !elem_of_app. Qed.

Lemma validationFails_elem e spec : e ∈ validateSpec spec → validationFails spec.
Proof. unfold validationFails. intros He Hnil. rewrite Hnil in He. by apply elem_of_nil in He. Qed.

Lemma passes_no_entry spec e : validateSpec spec = [] → e ∉ validateSpec spec.
Proof. intros ->. apply not_elem_of_nil. Qed.

Lemma requirementsOf_elem spec x :
  x ∈ requirementsOf spec → is_Some (Requirements spec).
Proof.
  unfold requirementsOf. destruct (Requirements spec); [done|].
  by intros ?%elem_of_nil.
Qed.

(** *** A spec that passes *)

Lemma passes_checked spec :
  validateSpec spec = [] → existsb blocking (validateSchema spec) = false.
Proof.
  intros Hnil. apply existsb_false. intros e He.
  destruct (passes_no_entry spec e Hnil). apply elem_of_validateSpec. by left.
Qed.

Lemma passes_rule spec rule message :
  validateSpec spec = [] →
  (∀ e, e ∈ xvalidation false rule "requirements" message →
        e ∈ requirementRules false (requirementsOf spec)) →
  rule = Some true.
Proof.
  intros Hnil Hrule. pose proof (passes_checked spec Hnil) as Hchecked.
  destruct rule as [[]|]; [done| |].
  - destruct (passes_no_entry spec (Invalid "requirements" message) Hnil).
    apply elem_of_validateSpec. right; right. split; [done|].
    apply Hrule. by left.
  - destruct (passes_no_entry spec (RuleError "requirements" message) Hnil).
    apply elem_of_validateSpec. right; right. split; [done|].
    apply Hrule. by left.
Qed.

(** What the markers ask of the requirements of a spec that passes. *)
Lemma passes_keeps_markers spec x :
  validateSpec spec = [] →
  x ∈ requirementsOf spec →
  (Operator x = "In" → valuesOf x ≠ [])
  ∧ (Operator x = "Gt" ∨ Operator x = "Lt" → singleNonNegativeInt (valuesOf x))
  ∧ (∀ m, MinValues x = Some m →
          1 ≤ m ≤ 50
          ∧ (Operator x = "In" → m ≤ Z.of_nat (length (valuesOf x)))).
Proof.
  intros Hnil Hx. split_and!.
  - assert (inRule (requirementsOf spec) = Some true) as Hrule.
    { apply (passes_rule spec _ inMessage Hnil).
      intros e He. apply elem_of_requirementRules. by left. }
    apply in_body_true, (proj1 (cel_facts.all_true _ _) Hrule x Hx).
  - assert (gtLtRule (requirementsOf spec) = Some true) as Hrule.
    { apply (passes_rule spec _ gtLtMessage Hnil).
      intros e He. apply elem_of_requirementRules. right. by left. }
    apply gtLt_body_true, (proj1 (cel_facts.all_true _ _) Hrule x Hx).
  - intros m Hm. split.
    + destruct (decide (1 ≤ m ≤ 50)); [done|].
      apply list_elem_of_lookup in Hx as [i Hi].
      destruct (passes_no_entry spec (NotInRange i "minValues" 1 50) Hnil).
      apply elem_of_validateSpec. left. apply elem_of_validateSchema. left.
      apply elem_of_validateRequirements. left. eauto 10.
    + intros Hop.
      assert (minValuesRule (requirementsOf spec) = Some true) as Hrule.
      { apply (passes_rule spec _ minValuesMessage Hnil).
        intros e He. apply elem_of_requirementRules. right. by right. }
      pose proof (proj1 (cel_facts.all_true _ _) Hrule x Hx) as Hbody.
      by apply (proj1 (minValues_body_true x) Hbody Hop m Hm).
Qed.

(** And the other way round. *)
Lemma markers_kept_passes spec :
  is_Some (Requirements spec) →
  Z.of_nat (length (requirementsOf spec)) ≤ 100 →
  is_Some (NodeClassRef spec) →
  (∀ x, x ∈ requirementsOf spec →
      (Operator x = "In" → valuesOf x ≠ [])
      ∧ (Operator x = "Gt" ∨ Operator x = "Lt" → singleNonNegativeInt (valuesOf x))
      ∧ (∀ m, MinValues x = Some m →
              1 ≤ m ≤ 50
              ∧ (Operator x = "In" → m ≤ Z.of_nat (length (valuesOf x))))) →
  validateSpec spec = [].
Proof.
  intros Hreq Hlen Href Hall.
  assert (existsb blocking (validateSchema spec) = false) as Hchecked
    by (by apply rules_checked).
  assert (inRule (requirementsOf spec) = Some true) as Hin.
  { apply cel_facts.all_true. intros x Hx. apply in_body_true, Hall, Hx. }
  assert (gtLtRule (requirementsOf spec) = Some true) as Hgt.
  { apply cel_facts.all_true. intros x Hx. apply gtLt_body_true, Hall, Hx. }
  assert (minValuesRule (requirementsOf spec) = Some true) as Hmin.
  { apply cel_facts.all_true. intros x Hx. apply minValues_body_true.
    intros Hop m Hm. destruct (Hall x Hx) as (Hv & _ & Hm').
    destruct (Hm' m Hm) as [_ Hle]. split; [|auto].
    specialize (Hv Hop). unfold valuesOf in Hv. by destruct (Values x). }
  apply elem_of_nil_inv. intros e [He | [[Hb _] | [_ He]]]%elem_of_validateSpec.
  - apply elem_of_validateSchema in He as [He | He].
    + apply elem_of_validateRequirements in He
        as [(i & x & m & Hx & Hm & Hout & _) | [_ ?]]; [|lia].
      destruct (Hall x) as (_ & _ & Hm'); [by eapply list_elem_of_lookup_2|].
      by destruct (Hm' m Hm).
    + destruct Hreq as [? Hreq], Href as [? Href].
      apply elem_of_validateRequired in He as [[_ ?] | [_ ?]]; congruence.
  - congruence.
  - apply elem_of_requirementRules in He.
    rewrite Hin, Hgt, Hmin in He. simpl in He.
    by destruct He as [?%elem_of_nil | [?%elem_of_nil | ?%elem_of_nil]].
Qed.

(** The message of a rule is in the report exactly when the rules are
    evaluated and the rule evaluates to [false]. *)
Lemma Invalid_validateSpec spec field message :
  Invalid field message ∈ validateSpec spec
  ↔ field = "requirements"
    ∧ existsb blocking (validateSchema spec) = false
    ∧ ((message = inMessage ∧ inRule (requirementsOf spec) = Some false)
       ∨ (message = gtLtMessage ∧ gtLtRule (requirementsOf spec) = Some false)
       ∨ (message = minValuesMessage
          ∧ minValuesRule (requirementsOf spec) = Some false)).
Proof.
  rewrite elem_of_validateSpec, elem_of_validateSchema, elem_of_validateRequirements,
    elem_of_validateRequired, elem_of_requirementRules, !elem_of_xvalidation.
  split.
  - intros [[[(? & ? & ? & _ & _ & _ & [=]) | [[=] _]] | [[[=] _] | [[=] _]]]
            | [[_ [=]] | [Hchecked Hrule]]].
    destruct Hrule as [[(? & _ & [= -> ->]) | [_ [=]]]
                      | [[(? & _ & [= -> ->]) | [_ [=]]]
                        | [(? & _ & [= -> ->]) | [_ [=]]]]]; auto 10.
  - intros (-> & Hchecked & [[-> ?] | [[-> ?] | [-> ?]]]);
      right; right; (split; [done|]); auto 10.
Qed.

(** The scenario of the specification: two values with [minValues] 2
    pass, with [minValues] 3 they are rejected by the third rule. *)
Example zone_minValues_2 : validateSpec (samples.specOf [samples.zoneIn 2]) = [].
Proof. reflexivity. Qed.

Example zone_minValues_3 :
  validateSpec (samples.specOf [samples.zoneIn 3])
  = [Invalid "requirements" minValuesMessage].
Proof. reflexivity. Qed.

(** A [Gt] requirement with the value 0 passes. *)
Example cpu_gt_zero : validateSpec (samples.specOf [samples.cpuGt "0"]) = [].
Proof. reflexivity. Qed.

(** C1, as stated, fails: a requirement with [minValues] set and the
    operator [Exists] passes validation, although its operator is not
    [In]. *)
Lemma minValues_without_In_passes :
  samples.zoneExists ∈ requirementsOf (samples.specOf [samples.zoneExists])
  ∧ MinValues samples.zoneExists = Some 1
  ∧ ¬ (validationFails (samples.specOf [samples.zoneExists])
       ↔ Operator samples.zoneExists ≠ "In"
         ∨ Z.of_nat (length (valuesOf samples.zoneExists)) < 1).
Proof.
  split_and!; [by left | done |].
  intros [_ Hfails]. by apply Hfails; [left|].
Qed.

(** C1, amended: the report of a validation holds the message
    "requirements with 'minValues' must have at least that many values"
    if and only if the rules are evaluated (the spec has its
    requirements, at most 100, and its [nodeClassRef]) and some
    requirement has the operator [In], has [minValues] set and has a
    values list with fewer elements than [minValues]; validation of a spec
    fails for every such requirement.  The rule does not look at a
    requirement with [minValues] whose operator is not [In]. *)
Theorem minValues_needs_that_many_values spec :
  (Invalid "requirements" minValuesMessage ∈ validateSpec spec
   ↔ Z.of_nat (length (requirementsOf spec)) ≤ 100
     ∧ is_Some (NodeClassRef spec)
     ∧ ∃ x m vs, x ∈ requirementsOf spec ∧ Operator x = "In"
                 ∧ MinValues x = Some m ∧ Values x = Some vs
                 ∧ Z.of_nat (length vs) < m)
  ∧ (∀ x m, x ∈ requirementsOf spec → MinValues x = Some m → Operator x = "In" →
            Z.of_nat (length (valuesOf x)) < m → validationFails spec).
Proof.
  split.
  - rewrite Invalid_validateSpec, rules_checked. unfold minValuesRule.
    rewrite cel_facts.all_false. split.
    + intros (_ & (_ & Hlen & Href) & [[[=] _] | [[[=] _] | [_ (x & Hx & Hbody)]]]).
      apply minValues_body_false in Hbody as (Hop & m & vs & Hm & Hv & Hlt).
      split_and!; try done. eauto 10.
    + intros (Hlen & Href & x & m & vs & Hx & Hop & Hm & Hv & Hlt).
      split_and!; try done; [by eapply requirementsOf_elem|].
      right; right. split; [done|]. exists x. split; [done|].
      apply minValues_body_false. eauto 10.
  - intros x m Hx Hm Hop Hlt Hnil.
    destruct (passes_keeps_markers spec x Hnil Hx) as (_ & _ & Hmin).
    destruct (Hmin m Hm) as [_ Hle]. specialize (Hle Hop). lia.
Qed.

Lemma minValues_needs_that_many_values_witness :
  validationFails (samples.specOf [samples.zoneIn 3]).
Proof.
  apply (proj2 (minValues_needs_that_many_values (samples.specOf [samples.zoneIn 3]))
           (samples.zoneIn 3) 3).
  - by left.
  - reflexivity.
  - reflexivity.
  - simpl. lia.
Defined.

(** C5, as stated, fails: validation of a spec fails although its [In]
    requirement has values, here through the rule on [minValues]. *)
Lemma In_with_values_can_fail :
  samples.zoneIn 3 ∈ requirementsOf (samples.specOf [samples.zoneIn 3])
  ∧ Operator (samples.zoneIn 3) = "In"
  ∧ ¬ (validationFails (samples.specOf [samples.zoneIn 3])
       ↔ valuesOf (samples.zoneIn 3) = []).
Proof.
  split_and!; [by left | done |].
  intros [Hfails _]. by specialize (Hfails ltac:(done)).
Qed.

(** C5, amended: the report of a validation holds the message
    "requirements with operator 'In' must have a value defined" if and
    only if the rules are evaluated (the spec has its requirements, at
    most 100, and its [nodeClassRef]) and some requirement whose operator
    is [In] has an empty values list; validation of a spec fails for
    every [In] requirement whose values are empty or left out (it can
    also fail when all of them have values, through another rule). *)
Theorem In_needs_a_value spec :
  (Invalid "requirements" inMessage ∈ validateSpec spec
   ↔ Z.of_nat (length (requirementsOf spec)) ≤ 100
     ∧ is_Some (NodeClassRef spec)
     ∧ ∃ x, x ∈ requirementsOf spec ∧ Operator x = "In" ∧ Values x = Some [])
  ∧ (∀ x, x ∈ requirementsOf spec → Operator x = "In" → valuesOf x = [] →
          validationFails spec).
Proof.
  split.
  - rewrite Invalid_validateSpec, rules_checked. unfold inRule.
    rewrite cel_facts.all_false. split.
    + intros (_ & (_ & Hlen & Href) & [[_ (x & Hx & Hbody)] | [[[=] _] | [[=] _]]]).
      apply in_body_false in Hbody as [Hop Hv]. split_and!; try done. eauto.
    + intros (Hlen & Href & x & Hx & Hop & Hv).
      split_and!; try done; [by eapply requirementsOf_elem|].
      left. split; [done|]. exists x. split; [done|].
      by apply in_body_false.
  - intros x Hx Hop Hv Hnil.
    destruct (passes_keeps_markers spec x Hnil Hx) as (Hin & _).
    by apply Hin.
Qed.

Lemma In_needs_a_value_witness :
  validationFails (samples.specOf [samples.requirement "zone" "In" (Some []) None]).
Proof.
  apply (proj2 (In_needs_a_value
                  (samples.specOf [samples.requirement "zone" "In" (Some []) None]))
           (samples.requirement "zone" "In" (Some []) None)).
  - by left.
  - reflexivity.
  - reflexivity.
Defined.

(** C6: for every requirement of a spec whose operator is [Gt] or [Lt],
    validation of the spec fails unless the values list of the
    requirement has exactly one element and that element parses as an
    integer that is not negative; zero is accepted: a spec whose one
    requirement has that operator and the value "0" passes validation. *)
Theorem Gt_Lt_need_one_integer spec x :
  x ∈ requirementsOf spec →
  Operator x = "Gt" ∨ Operator x = "Lt" →
  (¬ singleNonNegativeInt (valuesOf x) → validationFails spec)
  ∧ validateSpec
      (samples.specOf [samples.requirement "cpu" (Operator x) (Some ["0"]) None])
    = [].
Proof.
  intros Hx Hop. split.
  - intros Hv Hnil.
    destruct (passes_keeps_markers spec x Hnil Hx) as (_ & Hgt & _). auto.
  - by destruct Hop as [-> | ->].
Qed.

Lemma Gt_Lt_need_one_integer_witness :
  validationFails (samples.specOf [samples.cpuGt "-1"])
  ∧ validateSpec (samples.specOf [samples.cpuGt "0"]) = [].
Proof.
  destruct (Gt_Lt_need_one_integer (samples.specOf [samples.cpuGt "-1"])
              (samples.cpuGt "-1") ltac:(by left) ltac:(by left))
    as [Hfails Hzero].
  split; [|exact Hzero].
  apply Hfails.
  intros (v & n & [= <-] & Hp & Hn). vm_compute in Hp. injection Hp as <-. lia.
Defined.

End validation.
(** ** Updates of a stored NodeClaim *)
Module immutability.
Import v1.


Lemma update_rejected stored proposed :
  validateUpdate stored proposed ≠ [] → (update stored proposed).1 = stored.
Proof. unfold update. by destruct (validateUpdate stored proposed). Qed.


(** An update that changes the spec is reported. *)
Lemma changed_spec_reported stored proposed :
  Spec proposed ≠ Spec stored → validateUpdate stored proposed ≠ [].
Proof.
  intros Hne. unfold validateUpdate, immutableRule, cel.lit.
  rewrite (bool_decide_eq_false_2 _ Hne). simpl.
  destruct (existsb blocking _).
  - intros [_ [=]]%app_nil.
  - intros [_ [=]]%app_nil.
Qed.






End immutability.

(** ** The reconciliation cycle *)
Module cycle.
Import informer.

Section Runs.
Context `{Collaborators}.
Variable c : NodeClaimController.
Variable ctx : context.Context.
Variable req : reconcile.Request.
Variable w : World.

Local Abbreviation key := (reconcile.RequestNamespacedName req).
Local Abbreviation name := (reconcile.RequestName req).

(** The three runs of a cycle, by the answer of the client. *)
Lemma run_not_found err :
  fetch c ctx req = inl err → IsNotFound err = true →
  Reconcile c ctx req w
  = ((reconcile.zero, None),
     {| cluster := DeleteNodeClaim (cluster w) name;
        calls := (calls w ++ [KubeClient (client.Get key)])
                 ++ [ClusterDeleteNodeClaim name] |}).
Proof.
  unfold fetch, reconcileContext, Reconcile, kubeClientGet, bind, call, ret.
  intros -> Hnf. simpl. by rewrite Hnf.
Qed.

Lemma run_error err :
  fetch c ctx req = inl err → IsNotFound err = false →
  Reconcile c ctx req w
  = ((reconcile.zero, Some err),
     {| cluster := cluster w; calls := calls w ++ [KubeClient (client.Get key)] |}).
Proof.
  unfold fetch, reconcileContext, Reconcile, kubeClientGet, bind, call, ret.
  intros -> Hnf. simpl. by rewrite Hnf.
Qed.

Lemma run_found nodeClaim :
  fetch c ctx req = inr nodeClaim →
  Reconcile c ctx req w
  = (({| reconcile.Requeue := false; reconcile.RequeueAfter := stateRetryPeriod |},
      None),
     {| cluster := UpdateNodeClaim (cluster w) nodeClaim;
        calls := (calls w ++ [KubeClient (client.Get key)])
                 ++ [ClusterUpdateNodeClaim nodeClaim] |}).
Proof.
  unfold fetch, reconcileContext, Reconcile, kubeClientGet, bind, call, ret.
  by intros ->.
Qed.

(** C2: when the fetch reports not-found, the cycle calls
    [DeleteNodeClaim] on the cluster state exactly once, with the name of
    the request, does not call [UpdateNodeClaim], and returns no
    error. *)
Theorem not_found_deletes err :
  fetch c ctx req = inl err → IsNotFound err = true →
  ∃ (res : reconcile.Result) (t : list Call) (w' : World),
    Reconcile c ctx req w = ((res, None), w')
    ∧ calls w' = calls w ++ t
    ∧ deletes t = [name]
    ∧ upserts t = []
    ∧ cluster w' = DeleteNodeClaim (cluster w) name.
Proof.
  intros Hget Hnf. rewrite (run_not_found err Hget Hnf).
  eexists _, [KubeClient (client.Get key); ClusterDeleteNodeClaim name], _.
  split; [done|]. simpl. by rewrite <- app_assoc.
Qed.

(** C3: when the fetch fails with an error that is not a not-found, the
    cycle returns that error and calls neither [UpdateNodeClaim] nor
    [DeleteNodeClaim]: the cluster state is as it was. *)
Theorem other_error_is_returned err :
  fetch c ctx req = inl err → IsNotFound err = false →
  ∃ (res : reconcile.Result) (t : list Call) (w' : World),
    Reconcile c ctx req w = ((res, Some err), w')
    ∧ calls w' = calls w ++ t
    ∧ upserts t = []
    ∧ deletes t = []
    ∧ cluster w' = cluster w.
Proof.
  intros Hget Hnf. rewrite (run_error err Hget Hnf).
  by eexists _, [KubeClient (client.Get key)], _.
Qed.

(** C4: when the fetch succeeds, the cycle calls [UpdateNodeClaim]
    exactly once, with the fetched NodeClaim, returns no error, and asks
    for the key again after [stateRetryPeriod]: a resync after that
    delay when the period is positive. *)
Theorem found_upserts_and_resyncs nodeClaim :
  fetch c ctx req = inr nodeClaim →
  ∃ (res : reconcile.Result) (t : list Call) (w' : World),
    Reconcile c ctx req w = ((res, None), w')
    ∧ calls w' = calls w ++ t
    ∧ upserts t = [nodeClaim]
    ∧ deletes t = []
    ∧ cluster w' = UpdateNodeClaim (cluster w) nodeClaim
    ∧ res = {| reconcile.Requeue := false;
               reconcile.RequeueAfter := stateRetryPeriod |}
    ∧ (0 < stateRetryPeriod → resyncAfter res = Some stateRetryPeriod).
Proof.
  intros Hget. rewrite (run_found nodeClaim Hget).
  eexists _, [KubeClient (client.Get key); ClusterUpdateNodeClaim nodeClaim], _.
  split; [done|]. simpl. rewrite <- app_assoc. repeat split.
  intros Hpos. unfold resyncAfter; simpl.
  by apply Z.ltb_lt in Hpos as ->.
Qed.

(** C8: whatever the fetch answers, the only call of the cycle on the
    kube client is the [Get] of the requested key; no call on it
    writes (no create, update, patch or delete of a NodeClaim or of its
    status). *)
Theorem only_reads_the_store :
  ∃ t : list Call, calls (Reconcile c ctx req w).2 = calls w ++ t
       ∧ clientCalls t = [client.Get key]
       ∧ Forall (λ k, client.writes k = false) (clientCalls t).
Proof.
  destruct (fetch c ctx req) as [err|nodeClaim] eqn:Hget.
  - destruct (IsNotFound err) eqn:Hnf.
    + rewrite (run_not_found err Hget Hnf).
      exists [KubeClient (client.Get key); ClusterDeleteNodeClaim name]; simpl.
      rewrite <- app_assoc. repeat split. by repeat constructor.
    + rewrite (run_error err Hget Hnf).
      exists [KubeClient (client.Get key)]; simpl.
      repeat split. by repeat constructor.
  - rewrite (run_found nodeClaim Hget).
    exists [KubeClient (client.Get key); ClusterUpdateNodeClaim nodeClaim]; simpl.
    rewrite <- app_assoc. repeat split. by repeat constructor.
Qed.

(** C10: when the fetch reports not-found, the cycle returns the empty
    result, which asks for no requeue; a cycle whose result asks for a
    resync after a delay has fetched the NodeClaim. *)
Theorem no_resync_after_delete :
  (∀ err, fetch c ctx req = inl err → IsNotFound err = true →
          (Reconcile c ctx req w).1.1 = reconcile.zero
          ∧ reconcile.Requeue (Reconcile c ctx req w).1.1 = false
          ∧ resyncAfter (Reconcile c ctx req w).1.1 = None)
  ∧ (is_Some (resyncAfter (Reconcile c ctx req w).1.1) →
     ∃ nodeClaim, fetch c ctx req = inr nodeClaim).
Proof.
  split.
  - intros err Hget Hnf. by rewrite (run_not_found err Hget Hnf).
  - destruct (fetch c ctx req) as [err|nodeClaim] eqn:Hget; [|eauto].
    destruct (IsNotFound err) eqn:Hnf.
    + rewrite (run_not_found err Hget Hnf). by intros [? [=]].
    + rewrite (run_error err Hget Hnf). by intros [? [=]].
Qed.

End Runs.

Section Witnesses.
Local Existing Instance samples.collaborators.
Local Abbreviation run answer :=
  (Reconcile (samples.controllerOn answer) samples.background
     (samples.request "ng-1") samples.emptyWorld).

(** The scenario of the specification: the cycle for "ng-1" when the
    fetch reports not-found. *)
Lemma not_found_deletes_witness :
  ∃ (res : reconcile.Result) (t : list Call) (w' : World),
    run (inl samples.notFound) = ((res, None), w')
    ∧ calls w' = [] ++ t
    ∧ deletes t = ["ng-1"]
    ∧ upserts t = []
    ∧ cluster w' = DeleteNodeClaim ∅ "ng-1".
Proof.
  apply (not_found_deletes (samples.controllerOn (inl samples.notFound))
           samples.background (samples.request "ng-1") samples.emptyWorld
           samples.notFound);
    reflexivity.
Defined.

Lemma other_error_is_returned_witness :
  ∃ (res : reconcile.Result) (t : list Call) (w' : World),
    run (inl samples.timeout) = ((res, Some samples.timeout), w')
    ∧ calls w' = [] ++ t
    ∧ upserts t = []
    ∧ deletes t = []
    ∧ cluster w' = ∅.
Proof.
  apply (other_error_is_returned (samples.controllerOn (inl samples.timeout))
           samples.background (samples.request "ng-1") samples.emptyWorld
           samples.timeout);
    reflexivity.
Defined.

Lemma found_upserts_and_resyncs_witness :
  ∃ (res : reconcile.Result) (t : list Call) (w' : World),
    run (inr samples.ng1) = ((res, None), w')
    ∧ calls w' = [] ++ t
    ∧ upserts t = [samples.ng1]
    ∧ deletes t = []
    ∧ cluster w' = UpdateNodeClaim ∅ samples.ng1
    ∧ res = {| reconcile.Requeue := false;
               reconcile.RequeueAfter := 60000000000 |}
    ∧ resyncAfter res = Some 60000000000.
Proof.
  destruct (found_upserts_and_resyncs (samples.controllerOn (inr samples.ng1))
              samples.background (samples.request "ng-1") samples.emptyWorld
              samples.ng1 eq_refl)
    as (res & t & w' & Hrun & Hcalls & Hup & Hdel & Hcl & Hres & Hresync).
  exists res, t, w'. split_and!; try done.
  by apply Hresync.
Defined.

Lemma no_resync_after_delete_witness :
  (run (inl samples.notFound)).1.1 = reconcile.zero
  ∧ reconcile.Requeue (run (inl samples.notFound)).1.1 = false
  ∧ resyncAfter (run (inl samples.notFound)).1.1 = None.
Proof.
  apply (proj1 (no_resync_after_delete
                  (samples.controllerOn (inl samples.notFound))
                  samples.background (samples.request "ng-1") samples.emptyWorld)
           samples.notFound);
    reflexivity.
Defined.

End Witnesses.

End cycle.

(** ** Registration and the workers of the controller *)
Module registration.
Import informer.

Lemma inFlight_take (ws : list (option reconcile.Request)) i item :
  ws !! i = Some None →
  omap id (<[i := Some item]> ws) ≡ₚ item :: omap id ws.
Proof.
  intros Hi.
  rewrite insert_take_drop by (by eapply lookup_lt_Some).
  rewrite <- (take_drop_middle ws i None Hi) at 3.
  rewrite !omap_app. simpl. by rewrite Permutation_middle.
Qed.

Lemma inFlight_done (ws : list (option reconcile.Request)) i item :
  ws !! i = Some (Some item) →
  omap id ws ≡ₚ item :: omap id (<[i := None]> ws).
Proof.
  intros Hi.
  rewrite insert_take_drop by (by eapply lookup_lt_Some).
  rewrite <- (take_drop_middle ws i (Some item) Hi) at 1.
  rewrite !omap_app. simpl. by rewrite Permutation_middle.
Qed.

Lemma inFlight_length p : (length (inFlight p) ≤ length (workers p))%nat.
Proof.
  unfold inFlight. generalize (workers p).
  intros ws; induction ws as [|[item|] ws IH]; csimpl; lia.
Qed.

Lemma inFlight_Start {R} (ctrl : Controller R) : inFlight (Start ctrl) = [].
Proof. unfold inFlight, Start; simpl. by induction (Z.to_nat _). Qed.

Lemma poolInvariant_Start {R} (ctrl : Controller R) :
  poolInvariant (Z.to_nat (MaxConcurrentReconciles (ControllerOptions ctrl)))
    (Start ctrl).
Proof.
  unfold poolInvariant. rewrite inFlight_Start. simpl.
  rewrite length_replicate. repeat split; try constructor; set_solver.
Qed.

Lemma poolInvariant_step n p p' :
  step p p' → poolInvariant n p → poolInvariant n p'.
Proof.
  unfold poolInvariant, inFlight.
  intros Hstep (Hlen & Hnd & Hproc & Hq & Hwait).
  destruct Hstep as [p item | p i item q' Hi Hget | p i item Hi]; simpl.
  - (* a key is added *)
    unfold QueueAdd. repeat case_decide; simpl; split_and!; try done.
    + intros x Hx. apply Hwait in Hx. set_solver.
    + apply NoDup_app. split_and!; [done | | apply NoDup_singleton].
      intros x Hx ->%list_elem_of_singleton. apply Hwait in Hx. tauto.
    + intros x [Hx | ->%list_elem_of_singleton]%elem_of_app;
        [apply Hwait in Hx|]; set_solver.
  - (* a worker takes the next key *)
    unfold QueueGet in Hget.
    destruct (queue (workqueue p)) as [|item' rest] eqn:Hqueue; [done|].
    injection Hget as -> <-. simpl.
    apply NoDup_cons in Hq as [Hfresh Hrest].
    assert (item ∉ processing (workqueue p)) as Hnew
      by (apply Hwait; by left).
    rewrite length_insert. split_and!; try done.
    + rewrite inFlight_take by done. apply NoDup_cons. split; [|done].
      by rewrite Hproc.
    + intros x. rewrite inFlight_take by done. rewrite elem_of_cons, Hproc. set_solver.
    + intros x Hx. assert (x ∈ item :: rest) as Hx' by (by right).
      apply Hwait in Hx'. set_solver.
  - (* a worker finishes its cycle *)
    rewrite (inFlight_done _ i item Hi) in Hnd.
    apply NoDup_cons in Hnd as [Hfresh Hnd].
    assert (∀ x, x ∈ omap id (<[i:=None]> (workers p))
                 ↔ x ∈ processing (workqueue p) ∖ {[item]}) as Hproc'.
    { intros x. rewrite elem_of_difference, <- Hproc, (inFlight_done _ i item Hi).
      rewrite elem_of_cons, elem_of_singleton. split; [|tauto].
      intros Hx. split; [by right | by intros ->]. }
    assert (item ∈ processing (workqueue p)) as Hin.
    { apply Hproc. rewrite (inFlight_done _ i item Hi). by left. }
    rewrite length_insert.
    unfold QueueDone. case_decide; simpl; split_and!; try done.
    + apply NoDup_app. split_and!; [done | | apply NoDup_singleton].
      intros x Hx ->%list_elem_of_singleton. apply Hwait in Hx. tauto.
    + intros x [Hx | ->%list_elem_of_singleton]%elem_of_app;
        [apply Hwait in Hx|]; set_solver.
    + intros x Hx. apply Hwait in Hx. set_solver.
Qed.

Lemma poolInvariant_reachable n p p' :
  rtc step p p' → poolInvariant n p → poolInvariant n p'.
Proof. induction 1; eauto using poolInvariant_step. Qed.

Lemma Register_adds `{Collaborators} c m m' :
  Register c m = (m', None) →
  m' = m ++ [{| Name := "state.nodeclaim"; Kind := "NodeClaim";
                ControllerOptions := {| MaxConcurrentReconciles := 10 |};
                Do := c |}].
Proof.
  unfold Register, Complete; simpl.
  destruct (managerAdd _ _); by intros [= <-].
Qed.

(** The workers do run cycles: from the start, a key is added and the
    first worker takes it. *)
Example one_cycle_in_flight :
  ∃ p, rtc step
         (Start {| Name := "state.nodeclaim"; Kind := "NodeClaim";
                   ControllerOptions := {| MaxConcurrentReconciles := 10 |};
                   Do := tt |}) p
       ∧ inFlight p = [samples.request "ng-1"].
Proof.
  eexists. split.
  - eapply rtc_l; [apply (step_add _ (samples.request "ng-1"))|].
    eapply rtc_l; [by apply (step_get _ 0%nat (samples.request "ng-1"))|].
    apply rtc_refl.
  - reflexivity.
Qed.

(** C9: the controller is registered under the name "state.nodeclaim"
    with [MaxConcurrentReconciles] 10; at every moment of a run of its
    workers, at most 10 cycles are executing, and they are for distinct
    keys. *)
Theorem Register_bounds_concurrency `{Collaborators} c m m' :
  Register c m = (m', None) →
  ∃ ctrl,
    m' = m ++ [ctrl]
    ∧ Name ctrl = "state.nodeclaim"
    ∧ Do ctrl = c
    ∧ MaxConcurrentReconciles (ControllerOptions ctrl) = 10
    ∧ ∀ p, rtc step (Start ctrl) p →
           (length (inFlight p) ≤ 10)%nat ∧ NoDup (inFlight p).
Proof.
  intros ->%Register_adds. eexists. split_and!; try done.
  intros p Hreach.
  pose proof (poolInvariant_reachable _ _ _ Hreach (poolInvariant_Start _))
    as (Hlen & Hnd & _).
  split; [|done].
  pose proof (inFlight_length p). simpl in Hlen. lia.
Qed.

Lemma Register_bounds_concurrency_witness :
  ∃ ctrl,
    (@Register samples.collaborators (samples.controllerOn (inr samples.ng1)) []).1
    = [] ++ [ctrl]
    ∧ Name ctrl = "state.nodeclaim"
    ∧ Do ctrl = samples.controllerOn (inr samples.ng1)
    ∧ MaxConcurrentReconciles (ControllerOptions ctrl) = 10
    ∧ ∀ p, rtc step (Start ctrl) p →
           (length (inFlight p) ≤ 10)%nat ∧ NoDup (inFlight p).
Proof.
  apply (@Register_bounds_concurrency samples.collaborators
           (samples.controllerOn (inr samples.ng1)) []).
  reflexivity.
Defined.

End registration.

(** ** What validation accepts *)
Module acceptance.
Import v1.

(** The rules report entries for rules only. *)
Lemma requirementRules_entry e ratcheted self :
  e ∈ requirementRules ratcheted self →
  (∃ field message, e = Invalid field message)
  ∨ (∃ field message, e = RuleError field message).
Proof.
  rewrite validation.elem_of_requirementRules, !validation.elem_of_xvalidation.
  intros [[(_ & _ & ->) | [_ ->]] | [[(_ & _ & ->) | [_ ->]] | [(_ & _ & ->) | [_ ->]]]];
    eauto.
Qed.

(** A structural entry of the report is an entry of the structural
    part. *)
Lemma structural_entry e spec :
  (∀ field message, e ≠ Invalid field message) →
  (∀ field message, e ≠ RuleError field message) →
  e ≠ RulesNotChecked →
  e ∈ validateSpec spec ↔ e ∈ validateSchema spec.
Proof.
  intros Hinv Herr Hnot. rewrite validation.elem_of_validateSpec. split; [|auto].
  intros [He | [[_ ->] | [_ He]]]; [done | done |].
  apply requirementRules_entry in He as [(f & m & ->) | (f & m & ->)];
    [by destruct (Hinv f m) | by destruct (Herr f m)].
Qed.

(** *** The integers [ParseInt] yields *)

Lemma digit_bound c d : strconv.digit c = Some d → 0 ≤ d ≤ 9.
Proof.
  unfold strconv.digit.
  destruct (48 <=? _) eqn:Hlo, (_ <=? 57) eqn:Hhi; simpl; intros [= <-]. lia.
Qed.

Lemma digits_ge s : ∀ acc n, 0 ≤ acc → strconv.digits acc s = Some n → acc ≤ n.
Proof.
  induction s as [|c s IH]; simpl; intros acc n Hacc.
  - intros [= <-]. lia.
  - destruct (strconv.digit c) as [d|] eqn:Hd; [|done].
    apply digit_bound in Hd. intros Hn%IH; lia.
Qed.

Lemma ParseInt_int64 s n :
  strconv.ParseInt s = Some n → - 2 ^ 63 ≤ n < 2 ^ 63.
Proof.
  unfold strconv.ParseInt. destruct s as [|c rest]; [done|].
  destruct (strconv.ParseUint _) as [un|] eqn:Hun; [|done].
  assert (0 ≤ un) as Hpos.
  { unfold strconv.ParseUint in Hun.
    destruct (if _ || _ then _ else _); [done|]. by apply digits_ge in Hun. }
  destruct (bool_decide (c = "-"%char)); simpl.
  - destruct (Z.ltb_spec (2 ^ 63) un); intros [= <-]; lia.
  - destruct (Z.leb_spec (2 ^ 63) un); intros [= <-]; lia.
Qed.

(** *** Properties of validation *)

(** X1: a spec that passes validation has its requirements, at most 100
    of them, and its [nodeClassRef], and each requirement keeps the
    markers: values for [In]; exactly one value, an integer that is not
    negative, for [Gt] and [Lt]; [minValues], when set, from 1 to 50 and,
    for [In], at most the number of values. *)
Theorem passes_only_if_markers_kept spec :
  validateSpec spec = [] →
  is_Some (Requirements spec)
  ∧ Z.of_nat (length (requirementsOf spec)) ≤ 100
  ∧ is_Some (NodeClassRef spec)
  ∧ ∀ x, x ∈ requirementsOf spec →
      (Operator x = "In" → valuesOf x ≠ [])
      ∧ (Operator x = "Gt" ∨ Operator x = "Lt" → singleNonNegativeInt (valuesOf x))
      ∧ (∀ m, MinValues x = Some m →
              1 ≤ m ≤ 50
              ∧ (Operator x = "In" → m ≤ Z.of_nat (length (valuesOf x)))).
Proof.
  intros Hnil.
  destruct (proj1 (validation.rules_checked spec) (validation.passes_checked spec Hnil))
    as (Hreq & Hlen & Href).
  split_and!; try done.
  intros x Hx. by apply (validation.passes_keeps_markers spec).
Qed.

Lemma passes_only_if_markers_kept_witness :
  is_Some (Requirements (samples.specOf [samples.zoneIn 2; samples.cpuGt "0"]))
  ∧ Z.of_nat (length (requirementsOf
                        (samples.specOf [samples.zoneIn 2; samples.cpuGt "0"]))) ≤ 100
  ∧ is_Some (NodeClassRef (samples.specOf [samples.zoneIn 2; samples.cpuGt "0"]))
  ∧ ∀ x, x ∈ requirementsOf (samples.specOf [samples.zoneIn 2; samples.cpuGt "0"]) →
      (Operator x = "In" → valuesOf x ≠ [])
      ∧ (Operator x = "Gt" ∨ Operator x = "Lt" → singleNonNegativeInt (valuesOf x))
      ∧ (∀ m, MinValues x = Some m →
              1 ≤ m ≤ 50
              ∧ (Operator x = "In" → m ≤ Z.of_nat (length (valuesOf x)))).
Proof.
  apply (passes_only_if_markers_kept
           (samples.specOf [samples.zoneIn 2; samples.cpuGt "0"])).
  reflexivity.
Defined.

(** X2: [MaxItems]: the report holds the error for too many requirements
    exactly when the spec has more than 100 of them, so such a spec fails
    validation whatever its requirements are. *)
Theorem more_than_100_requirements spec :
  (TooMany "requirements" 100 ∈ validateSpec spec
   ↔ 100 < Z.of_nat (length (requirementsOf spec)))
  ∧ (100 < Z.of_nat (length (requirementsOf spec)) → validationFails spec).
Proof.
  assert (TooMany "requirements" 100 ∈ validateSpec spec
          ↔ 100 < Z.of_nat (length (requirementsOf spec))) as Hiff.
  { rewrite structural_entry by done.
    rewrite validation.elem_of_validateSchema, validation.elem_of_validateRequirements,
      validation.elem_of_validateRequired.
    split; [|auto].
    by intros [[(? & ? & ? & _ & _ & _ & [=]) | [_ ?]] | [[[=] _] | [[=] _]]]. }
  split; [done|]. intros Hlen%Hiff. by eapply validation.validationFails_elem.
Qed.

Lemma more_than_100_requirements_witness :
  validationFails (samples.specOf (replicate 101 (samples.cpuGt "0"))).
Proof.
  apply (proj2 (more_than_100_requirements
                  (samples.specOf (replicate 101 (samples.cpuGt "0"))))).
  reflexivity.
Defined.

(** X3: the bounds of [minValues] hold for every operator: the report
    holds the error for [minValues] at a position exactly when the
    requirement at that position has [minValues] set below 1 or above 50;
    so it holds such an error exactly when some requirement has, and the
    spec then fails validation. *)
Theorem minValues_from_1_to_50 spec :
  (∀ i, NotInRange i "minValues" 1 50 ∈ validateSpec spec
        ↔ ∃ x m, requirementsOf spec !! i = Some x ∧ MinValues x = Some m
                 ∧ ¬ (1 ≤ m ≤ 50))
  ∧ ((∃ i, NotInRange i "minValues" 1 50 ∈ validateSpec spec)
     ↔ ∃ x m, x ∈ requirementsOf spec ∧ MinValues x = Some m ∧ ¬ (1 ≤ m ≤ 50))
  ∧ (∀ x m, x ∈ requirementsOf spec → MinValues x = Some m → ¬ (1 ≤ m ≤ 50) →
            validationFails spec).
Proof.
  assert (∀ i, NotInRange i "minValues" 1 50 ∈ validateSpec spec
               ↔ ∃ x m, requirementsOf spec !! i = Some x ∧ MinValues x = Some m
                        ∧ ¬ (1 ≤ m ≤ 50)) as Hiff.
  { intros i. rewrite structural_entry by done.
    rewrite validation.elem_of_validateSchema, validation.elem_of_validateRequirements,
      validation.elem_of_validateRequired.
    split.
    - intros [[(? & x & m & Hx & Hm & Hout & [= <-]) | [[=] _]] | [[[=] _] | [[=] _]]].
      eauto.
    - intros (x & m & Hx & Hm & Hout). left; left. eauto 10. }
  assert ((∃ i, NotInRange i "minValues" 1 50 ∈ validateSpec spec)
          ↔ ∃ x m, x ∈ requirementsOf spec ∧ MinValues x = Some m
                   ∧ ¬ (1 ≤ m ≤ 50)) as Hsome.
  { split.
    - intros [i (x & m & Hx & Hm & Hout)%Hiff].
      exists x, m. split; [by eapply list_elem_of_lookup_2 | done].
    - intros (x & m & [i Hi]%list_elem_of_lookup & Hm & Hout).
      exists i. apply Hiff. eauto. }
  split_and!; try done.
  intros x m Hx Hm Hout.
  destruct (proj2 Hsome) as [i Hi]; [eauto|].
  by eapply validation.validationFails_elem.
Qed.

Lemma minValues_from_1_to_50_witness :
  validationFails (samples.specOf [samples.requirement "zone" "Exists" None (Some 51)]).
Proof.
  apply (proj2 (proj2 (minValues_from_1_to_50
                  (samples.specOf [samples.requirement "zone" "Exists" None (Some 51)])))
           (samples.requirement "zone" "Exists" None (Some 51)) 51).
  - by left.
  - reflexivity.
  - simpl. lia.
Defined.

(** X4: [nodeClassRef] is required: the report holds the error for it
    exactly when the spec has none. *)
Theorem nodeClassRef_is_required spec :
  (Required "nodeClassRef" ∈ validateSpec spec ↔ NodeClassRef spec = None)
  ∧ (NodeClassRef spec = None → validationFails spec).
Proof.
  assert (Required "nodeClassRef" ∈ validateSpec spec ↔ NodeClassRef spec = None)
    as Hiff.
  { rewrite structural_entry by done.
    rewrite validation.elem_of_validateSchema, validation.elem_of_validateRequirements,
      validation.elem_of_validateRequired.
    split; [|auto].
    by intros [[(? & ? & ? & _ & _ & _ & [=]) | [[=] _]] | [[_ ?] | [[=] _]]]. }
  split; [done|]. intros Href%Hiff. by eapply validation.validationFails_elem.
Qed.

Lemma nodeClassRef_is_required_witness :
  validationFails
    {| Taints := []; StartupTaints := []; Requirements := Some [];
       Resources := {| Requests := ∅ |}; NodeClassRef := None |}.
Proof.
  apply (proj2 (nodeClassRef_is_required
                  {| Taints := []; StartupTaints := []; Requirements := Some [];
                     Resources := {| Requests := ∅ |}; NodeClassRef := None |})).
  reflexivity.
Defined.

(** X5: in a spec that passes validation, the value of a [Gt] or [Lt]
    requirement is one string that [int] converts to an integer from 0 to
    2^63 - 1: a larger number is rejected like a negative one. *)
Theorem Gt_Lt_value_fits_int64 spec x :
  validateSpec spec = [] →
  x ∈ requirementsOf spec →
  Operator x = "Gt" ∨ Operator x = "Lt" →
  ∃ v n, Values x = Some [v] ∧ cel.int (Some v) = Some n ∧ 0 ≤ n < 2 ^ 63.
Proof.
  intros Hnil Hx Hop.
  destruct (validation.passes_keeps_markers spec x Hnil Hx) as (_ & Hgt & _).
  destruct (Hgt Hop) as (v & n & Hv & Hn & Hpos).
  exists v, n. apply ParseInt_int64 in Hn as Hbound. split_and!; try done; [|lia].
  unfold valuesOf in Hv. by destruct (Values x) as [vs|]; simplify_eq/=.
Qed.

Lemma Gt_Lt_value_fits_int64_witness :
  ∃ v n, Values (samples.cpuGt "9223372036854775807") = Some [v]
         ∧ cel.int (Some v) = Some n ∧ 0 ≤ n < 2 ^ 63.
Proof.
  apply (Gt_Lt_value_fits_int64
           (samples.specOf [samples.cpuGt "9223372036854775807"])).
  - reflexivity.
  - by left.
  - by left.
Defined.

Lemma elementwise_validateMinValues (l : list NodeSelectorRequirementWithMinValues) :
  ∀ e, e ∈ mjoin (imap validateMinValues l) → elementwise e = true.
Proof.
  intros e (errs & He & Herrs)%list_elem_of_join.
  apply elem_of_lookup_imap in Herrs as (i & x & -> & _).
  by apply validation.elem_of_validateMinValues in He as [-> _].
Qed.

Lemma filter_none {A} (P : A → Prop) `{∀ x, Decision (P x)} (l : list A) :
  (∀ x, x ∈ l → ¬ P x) → filter P l = [].
Proof.
  intros Hnone. apply elem_of_nil_inv. intros x [HP Hx]%list_elem_of_filter.
  by apply (Hnone x).
Qed.

Lemma existsb_app_false {A} (f : A → bool) (l k : list A) :
  (∀ x, x ∈ l → f x = false) → existsb f (l ++ k) = existsb f k.
Proof.
  intros Hl. rewrite existsb_app.
  by rewrite (proj2 (validation.existsb_false f l) Hl).
Qed.

(** A spec passes with its requirements in another order. *)
Lemma passes_in_another_order spec spec' l l' :
  Requirements spec = Some l → Requirements spec' = Some l' → l ≡ₚ l' →
  NodeClassRef spec = NodeClassRef spec' →
  validateSpec spec = [] → validateSpec spec' = [].
Proof.
  intros Hreq Hreq' Hperm Href Hnil.
  destruct (proj1 (validation.rules_checked spec) (validation.passes_checked spec Hnil))
    as (_ & Hlen & Hclass).
  assert (requirementsOf spec = l) as Hl by (unfold requirementsOf; by rewrite Hreq).
  assert (requirementsOf spec' = l') as Hl' by (unfold requirementsOf; by rewrite Hreq').
  apply validation.markers_kept_passes.
  - by rewrite Hreq'.
  - by rewrite Hl', <- Hperm, <- Hl.
  - by rewrite <- Href.
  - intros x Hx. apply (validation.passes_keeps_markers spec); [done|].
    by rewrite Hl, Hperm, <- Hl'.
Qed.

(** X6: the order of the requirements does not matter to validation:
    a spec and the spec with the same requirements in another order pass
    or fail together, and apart from the entries that are about one
    element of the list their reports are the same. *)
Theorem order_of_requirements spec l l' :
  Requirements spec = Some l →
  l ≡ₚ l' →
  (validateSpec spec = [] ↔ validateSpec (withRequirements spec l') = [])
  ∧ filter (λ e, elementwise e = false) (validateSpec spec)
    = filter (λ e, elementwise e = false) (validateSpec (withRequirements spec l')).
Proof.
  intros Hreq Hperm. split.
  - split.
    + by apply (passes_in_another_order spec (withRequirements spec l') l l').
    + by apply (passes_in_another_order (withRequirements spec l') spec l' l).
  - unfold validateSpec, validateSchema, validateRequired, validateRequirements,
      requirementRules, inRule, gtLtRule, minValuesRule, withRequirements.
    simpl. rewrite Hreq, <- !(cel_facts.all_perm l l' _ Hperm),
      <- (Permutation_length Hperm).
    rewrite <- !(assoc_L (++)).
    rewrite !(existsb_app_false blocking (mjoin (imap validateMinValues _)))
      by (intros e He%elementwise_validateMinValues; by destruct e).
    rewrite !(filter_app _ (mjoin (imap validateMinValues _))).
    rewrite !(filter_none _ (mjoin (imap validateMinValues _)))
      by (intros e He%elementwise_validateMinValues; by rewrite He).
    done.
Qed.

Lemma order_of_requirements_witness :
  (validateSpec (samples.specOf [samples.zoneIn 3; samples.cpuGt "-1"]) = []
   ↔ validateSpec
       (withRequirements (samples.specOf [samples.zoneIn 3; samples.cpuGt "-1"])
          [samples.cpuGt "-1"; samples.zoneIn 3]) = [])
  ∧ filter (λ e, elementwise e = false)
      (validateSpec (samples.specOf [samples.zoneIn 3; samples.cpuGt "-1"]))
    = filter (λ e, elementwise e = false)
        (validateSpec
           (withRequirements (samples.specOf [samples.zoneIn 3; samples.cpuGt "-1"])
              [samples.cpuGt "-1"; samples.zoneIn 3])).
Proof.
  apply (order_of_requirements
           (samples.specOf [samples.zoneIn 3; samples.cpuGt "-1"])
           [samples.zoneIn 3; samples.cpuGt "-1"]
           [samples.cpuGt "-1"; samples.zoneIn 3]).
  - reflexivity.
  - apply perm_swap.
Defined.

(** X7: validation is kept when requirements are taken away: when a
    spec passes, the spec that differs from it only in its requirements,
    at most 100 and each of them a requirement of the first, passes. *)
Theorem fewer_requirements_pass spec l' :
  validateSpec spec = [] →
  (∀ x, x ∈ l' → x ∈ requirementsOf spec) →
  Z.of_nat (length l') ≤ 100 →
  validateSpec (withRequirements spec l') = [].
Proof.
  intros Hnil Hsub Hlen.
  destruct (proj1 (validation.rules_checked spec) (validation.passes_checked spec Hnil))
    as (_ & _ & Hclass).
  apply validation.markers_kept_passes; try done.
  intros x Hx. apply (validation.passes_keeps_markers spec); auto.
Qed.

Lemma fewer_requirements_pass_witness :
  validateSpec
    (withRequirements (samples.specOf [samples.zoneIn 2; samples.cpuGt "0"])
       [samples.cpuGt "0"])
  = [].
Proof.
  apply (fewer_requirements_pass
           (samples.specOf [samples.zoneIn 2; samples.cpuGt "0"])
           [samples.cpuGt "0"]).
  - reflexivity.
  - intros x Hx. by right.
  - simpl. lia.
Defined.

(** X8: in a spec that passes validation, an [In] requirement with
    [minValues] set to m has at least m values, with m from 1 to 50: for
    such a requirement the rule on [minValues] subsumes the rule on
    [In]. *)
Theorem In_with_minValues_has_values spec x m :
  validateSpec spec = [] →
  x ∈ requirementsOf spec →
  Operator x = "In" →
  MinValues x = Some m →
  1 ≤ m ≤ 50 ∧ m ≤ Z.of_nat (length (valuesOf x)) ∧ valuesOf x ≠ [].
Proof.
  intros Hnil Hx Hop Hm.
  destruct (validation.passes_keeps_markers spec x Hnil Hx) as (Hin & _ & Hmin).
  destruct (Hmin m Hm) as [Hrange Hlen]. auto.
Qed.

Lemma In_with_minValues_has_values_witness :
  1 ≤ 2 ≤ 50 ∧ 2 ≤ Z.of_nat (length (valuesOf (samples.zoneIn 2)))
  ∧ valuesOf (samples.zoneIn 2) ≠ [].
Proof.
  apply (In_with_minValues_has_values (samples.specOf [samples.zoneIn 2])
           (samples.zoneIn 2) 2).
  - reflexivity.
  - by left.
  - reflexivity.
  - reflexivity.
Defined.

End acceptance.

(** ** Sequences of updates *)
Module updates.
Import v1.

Lemma update_keeps_spec stored proposed :
  Spec (update stored proposed).1 = Spec stored.
Proof.
  destruct (decide (Spec proposed = Spec stored)) as [Heq | Hne].
  - unfold update. by destruct (validateUpdate stored proposed).
  - by rewrite immutability.update_rejected
      by (by apply immutability.changed_spec_reported).
Qed.

(** X9: whatever updates are proposed to a stored NodeClaim, one after
    the other, accepted or rejected, the spec that is stored stays the
    one it was created with. *)
Theorem spec_never_changes proposals :
  ∀ stored,
    Spec (foldl (λ current proposed, (update current proposed).1) stored proposals)
    = Spec stored.
Proof.
  induction proposals as [|proposed proposals IH]; intros stored; simpl.
  - done.
  - by rewrite IH, update_keeps_spec.
Qed.

End updates.

(** ** More on the reconciliation cycle *)
Module cycles.
Import informer.

Section Runs.
Context `{Collaborators}.
Variable c : NodeClaimController.
Variable ctx : context.Context.
Variable req : reconcile.Request.
Variable w : World.

Local Abbreviation key := (reconcile.RequestNamespacedName req).
Local Abbreviation name := (reconcile.RequestName req).

(** X10: the error a cycle returns is the error of the fetch when that
    is not a not-found, and no other: a cycle never returns a not-found
    error; with an error comes the empty result. *)
Theorem returned_error :
  (∀ err, (Reconcile c ctx req w).1.2 = Some err
          ↔ fetch c ctx req = inl err ∧ IsNotFound err = false)
  ∧ (is_Some (Reconcile c ctx req w).1.2 →
     (Reconcile c ctx req w).1.1 = reconcile.zero).
Proof.
  destruct (fetch c ctx req) as [e|nodeClaim] eqn:Hget.
  - destruct (IsNotFound e) eqn:Hnf.
    + rewrite (cycle.run_not_found c ctx req w e Hget Hnf); simpl. split.
      * intros err. split; [done | intros [[= <-] ?]; congruence].
      * done.
    + rewrite (cycle.run_error c ctx req w e Hget Hnf); simpl. split.
      * intros err. split; [by intros [= <-] | by intros [[= <-] _]].
      * done.
  - rewrite (cycle.run_found c ctx req w nodeClaim Hget); simpl. split.
    + intros err. split; [done | by intros [[=] _]].
    + by intros [? [=]].
Qed.

(** X11: a cycle first fetches; after the fetch it makes no call on the
    kube client and at most one call on the cluster state: one when it
    returns no error, none when it returns an error. *)
Theorem fetch_then_one_call_on_the_cluster :
  ∃ t : list Call,
    calls (Reconcile c ctx req w).2 = calls w ++ KubeClient (client.Get key) :: t
    ∧ clientCalls t = []
    ∧ length t = match (Reconcile c ctx req w).1.2 with
                 | Some _ => 0%nat
                 | None => 1%nat
                 end.
Proof.
  destruct (fetch c ctx req) as [e|nodeClaim] eqn:Hget.
  - destruct (IsNotFound e) eqn:Hnf.
    + rewrite (cycle.run_not_found c ctx req w e Hget Hnf); simpl.
      exists [ClusterDeleteNodeClaim name]. by rewrite <- app_assoc.
    + rewrite (cycle.run_error c ctx req w e Hget Hnf); simpl.
      by exists [].
  - rewrite (cycle.run_found c ctx req w nodeClaim Hget); simpl.
    exists [ClusterUpdateNodeClaim nodeClaim]. by rewrite <- app_assoc.
Qed.

(** X12: when [UpdateNodeClaim] and [DeleteNodeClaim] are idempotent, a
    cycle that runs again and gets the same answer from the client leaves
    the cluster state as the first run left it, and returns what the
    first run returned. *)
Theorem second_cycle_changes_nothing :
  (∀ cl nodeClaim,
     UpdateNodeClaim (UpdateNodeClaim cl nodeClaim) nodeClaim
     = UpdateNodeClaim cl nodeClaim) →
  (∀ cl n, DeleteNodeClaim (DeleteNodeClaim cl n) n = DeleteNodeClaim cl n) →
  cluster (bind (Reconcile c ctx req) (λ _, Reconcile c ctx req) w).2
  = cluster (Reconcile c ctx req w).2
  ∧ (bind (Reconcile c ctx req) (λ _, Reconcile c ctx req) w).1
    = (Reconcile c ctx req w).1.
Proof.
  intros Hupdate Hdelete. unfold bind.
  destruct (fetch c ctx req) as [e|nodeClaim] eqn:Hget.
  - destruct (IsNotFound e) eqn:Hnf.
    + rewrite (cycle.run_not_found c ctx req w e Hget Hnf).
      rewrite (cycle.run_not_found c ctx req _ e Hget Hnf); simpl.
      by rewrite Hdelete.
    + rewrite (cycle.run_error c ctx req w e Hget Hnf).
      by rewrite (cycle.run_error c ctx req _ e Hget Hnf).
  - rewrite (cycle.run_found c ctx req w nodeClaim Hget).
    rewrite (cycle.run_found c ctx req _ nodeClaim Hget); simpl.
    by rewrite Hupdate.
Qed.

End Runs.

Section Witnesses.
Local Existing Instance samples.collaborators.

Lemma second_cycle_changes_nothing_witness :
  cluster (bind (Reconcile (samples.controllerOn (inr samples.ng1))
                   samples.background (samples.request "ng-1"))
             (λ _, Reconcile (samples.controllerOn (inr samples.ng1))
                     samples.background (samples.request "ng-1"))
             samples.emptyWorld).2
  = cluster (Reconcile (samples.controllerOn (inr samples.ng1))
               samples.background (samples.request "ng-1") samples.emptyWorld).2
  ∧ (bind (Reconcile (samples.controllerOn (inr samples.ng1))
             samples.background (samples.request "ng-1"))
       (λ _, Reconcile (samples.controllerOn (inr samples.ng1))
               samples.background (samples.request "ng-1"))
       samples.emptyWorld).1
    = (Reconcile (samples.controllerOn (inr samples.ng1))
         samples.background (samples.request "ng-1") samples.emptyWorld).1.
Proof.
  apply (second_cycle_changes_nothing (samples.controllerOn (inr samples.ng1))
           samples.background (samples.request "ng-1") samples.emptyWorld).
  - intros cl nodeClaim. exact (insert_insert_eq (M := gmap string) cl _ _ _).
  - intros cl n. exact (delete_delete_eq (M := gmap string) cl n).
Defined.

End Witnesses.

End cycles.
